(** * OctaIndex3D book scripts: the index generator and the figure generator

    A shallow embedding of [scripts/generate_book_index.py] and
    [scripts/generate_book_figures.py], and the properties of the two
    scripts that the book's build relies on.

    Text is a Rocq [string]: a sequence of code points below 256.  Character
    classes and case mapping follow Python's [str] on that range (the
    vocabulary of the index generator is pure ASCII).  A file's text is what
    [read()] returns in text mode, that is, after decoding and after the
    translation of line ends to a single line feed. *)

From Stdlib Require Import List String Ascii Bool Arith NArith Lia.
From Stdlib Require Import Sorting.Sorted Sorting.Permutation.
From Stdlib Require Import Numbers.DecimalString.
Import ListNotations.

Local Open Scope list_scope.
Local Open Scope string_scope.

(** ** Characters, as Python's [str] classifies them *)

Module Chars.

Definition code (c : ascii) : N := N_of_ascii c.

Definition in_range (lo hi : N) (c : ascii) : bool :=
  (lo <=? code c)%N && (code c <=? hi)%N.

Definition is_code (n : N) (c : ascii) : bool := (code c =? n)%N.

Definition is_ascii_alnum (c : ascii) : bool :=
  in_range 48 57 c || in_range 65 90 c || in_range 97 122 c.

(** [\w] of a [str] pattern: alphanumeric ([str.isalnum]) or underscore. *)
Definition is_word_char (c : ascii) : bool :=
  is_ascii_alnum c || is_code 95 c
  || is_code 170 c || is_code 178 c || is_code 179 c || is_code 181 c
  || is_code 185 c || is_code 186 c || in_range 188 190 c
  || in_range 192 214 c || in_range 216 246 c || in_range 248 255 c.

(** [str.isspace], the characters [str.strip()] removes. *)
Definition is_space (c : ascii) : bool :=
  in_range 9 13 c || in_range 28 32 c || is_code 133 c || is_code 160 c.

(** [str.lower] on one character. *)
Definition lower_char (c : ascii) : ascii :=
  if in_range 65 90 c || in_range 192 214 c || in_range 216 222 c
  then ascii_of_N (code c + 32) else c.

(** [str.upper] on one character.  Python maps code points 181, 223 and 255
    outside the range of this model (223 to two characters); they are left
    unchanged here.  The only use is the first character of a key of the
    index, and the keys the scan produces are terms of the vocabulary, which
    start with an ASCII letter. *)
Definition upper_char (c : ascii) : ascii :=
  if in_range 97 122 c || in_range 224 246 c || in_range 248 254 c
  then ascii_of_N (code c - 32) else c.

Definition newline : ascii := "010"%char.

End Chars.
Import Chars.

(** ** The string operations of Python the scripts use *)

Module PyStr.

Fixpoint map_chars (f : ascii -> ascii) (s : string) : string :=
  match s with
  | EmptyString => EmptyString
  | String c r => String (f c) (map_chars f r)
  end.

Definition lower (s : string) : string := map_chars lower_char s.
Definition upper (s : string) : string := map_chars upper_char s.
Arguments lower : simpl never.
Arguments upper : simpl never.

Definition startswith (s p : string) : bool := String.prefix p s.

Fixpoint endswith (s suffix : string) : bool :=
  if String.eqb s suffix then true
  else match s with
       | EmptyString => false
       | String _ r => endswith r suffix
       end.

Fixpoint has_char (c : ascii) (s : string) : bool :=
  match s with
  | EmptyString => false
  | String d r => Ascii.eqb c d || has_char c r
  end.

Fixpoint lstrip_by (p : ascii -> bool) (s : string) : string :=
  match s with
  | EmptyString => EmptyString
  | String c r => if p c then lstrip_by p r else s
  end.

Fixpoint rstrip_by (p : ascii -> bool) (s : string) : string :=
  match s with
  | EmptyString => EmptyString
  | String c r =>
      match rstrip_by p r with
      | EmptyString => if p c then EmptyString else String c EmptyString
      | r' => String c r'
      end
  end.

(** [s.strip(chars)]: [chars] is a set of characters, not a prefix. *)
Definition strip_chars (chars s : string) : string :=
  rstrip_by (fun c => has_char c chars) (lstrip_by (fun c => has_char c chars) s).

(** [s.strip()]. *)
Definition strip (s : string) : string :=
  rstrip_by is_space (lstrip_by is_space s).

(** Iterating over a text file: the lines, each with its line feed (the last
    one may lack it). *)
Fixpoint iter_lines (s : string) : list string :=
  match s with
  | EmptyString => []
  | String c r =>
      if Ascii.eqb c newline then String c EmptyString :: iter_lines r
      else match iter_lines r with
           | [] => [String c EmptyString]
           | l :: ls => String c l :: ls
           end
  end.

(** [sep.join(parts)]. *)
Fixpoint join (sep : string) (parts : list string) : string :=
  match parts with
  | [] => EmptyString
  | [p] => p
  | p :: rest => p ++ sep ++ join sep rest
  end.

(** [str(n)] for a length. *)
Definition str_of_nat (n : nat) : string :=
  NilEmpty.string_of_uint (Nat.to_uint n).

Definition mem (s : string) (l : list string) : bool :=
  existsb (String.eqb s) l.

End PyStr.
Import PyStr.

(** ** The fragment of [re] the index generator uses *)

Module Re.

(** [re.escape]: a backslash before each special character. *)
Definition special_chars : string :=
  String "009" (String "010" (String "011" (String "012" (String "013"
    " #$&()*+-.?[\]^{|}~")))).

Definition is_special (c : ascii) : bool := has_char c special_chars.

Fixpoint escape (s : string) : string :=
  match s with
  | EmptyString => EmptyString
  | String c r =>
      if is_special c then String "\" (String c (escape r))
      else String c (escape r)
  end.

(** What a pattern of the fragment is made of. *)
Inductive atom : Type :=
| Boundary                (* \b *)
| Literal (c : ascii).

(** Characters with a meaning of their own in a pattern. *)
Definition is_meta (c : ascii) : bool := has_char c ".^$*+?{}[]\|()".

(** Parsing a pattern: [\b], an escaped non-alphanumeric character, or a plain
    character.  Any other construct is outside the fragment ([None]). *)
Fixpoint parse (p : string) : option (list atom) :=
  match p with
  | EmptyString => Some []
  | String c r =>
      if Ascii.eqb c "\" then
        match r with
        | EmptyString => None
        | String d r' =>
            if Ascii.eqb d "b" then option_map (cons Boundary) (parse r')
            else if is_ascii_alnum d then None
            else option_map (cons (Literal d)) (parse r')
        end
      else if is_meta c then None
      else option_map (cons (Literal c)) (parse r)
  end.

Definition word_opt (c : option ascii) : bool :=
  match c with
  | Some a => is_word_char a
  | None => false
  end.

(** [\b] between the character before the position and the one after it. *)
Definition at_boundary (prev next : option ascii) : bool :=
  xorb (word_opt prev) (word_opt next).

Definition head (s : string) : option ascii :=
  match s with
  | EmptyString => None
  | String c _ => Some c
  end.

(** A literal under [re.IGNORECASE]. *)
Definition ci_eqb (a b : ascii) : bool := Ascii.eqb (lower_char a) (lower_char b).

(** Matching the atoms at one position; [prev] is the character before it. *)
Fixpoint match_here (atoms : list atom) (prev : option ascii) (s : string) : bool :=
  match atoms with
  | [] => true
  | Boundary :: rest => at_boundary prev (head s) && match_here rest prev s
  | Literal c :: rest =>
      match s with
      | EmptyString => false
      | String d s' => ci_eqb c d && match_here rest (Some d) s'
      end
  end.

(** [re.search]: the first position, left to right, with a match. *)
Fixpoint search_from (atoms : list atom) (prev : option ascii) (s : string) : bool :=
  match_here atoms prev s
  || match s with
     | EmptyString => false
     | String d s' => search_from atoms (Some d) s'
     end.

(** [bool(re.search(pattern, text, re.IGNORECASE))]; [None] for a pattern
    outside the fragment. *)
Definition search_ignorecase (pattern text : string) : option bool :=
  match parse pattern with
  | Some atoms => Some (search_from atoms None text)
  | None => None
  end.

End Re.

(** ** The index generator, [scripts/generate_book_index.py] *)

Module BookIndex.

Definition nl : string := String newline EmptyString.

(** [os.path.join(a, b)] and [os.path.basename(p)] on POSIX paths. *)
Definition path_join (a b : string) : string :=
  if startswith b "/" then b
  else if String.eqb a "" || endswith a "/" then a ++ b
  else a ++ "/" ++ b.

Fixpoint basename (p : string) : string :=
  match p with
  | EmptyString => EmptyString
  | String c r =>
      if has_char "/" r then basename r
      else if Ascii.eqb c "/" then r
      else p
  end.

Fixpoint drop (n : nat) (s : string) : string :=
  match n, s with
  | S n', String _ r => drop n' r
  | _, _ => s
  end.

(** [os.path.relpath(path, start)] for a [path] the walk builds from [start]
    and names of directory entries (not empty, without a slash, neither [.]
    nor [..]): the part of [path] after [start] and its slash. *)
Definition relpath (path start : string) : string :=
  if startswith path (start ++ "/") then drop (String.length start + 1) path
  else path.

Definition BOOK_DIR : string := "book".
Definition INDEX_FILE : string := path_join (path_join BOOK_DIR "back_matter") "index.md".
Definition IGNORE_DIRS : list string := ["images"; "back_matter"].
Definition IGNORE_FILES : list string :=
  ["index.md"; "SUMMARY.md"; "BOOK_ENHANCEMENT_SUGGESTIONS.md"; "ERRATA.md"; "LICENSE.md"].

Definition EXPLICIT_TERMS : list string :=
  [ "BCC"; "Body-Centered Cubic"; "Octree"; "Morton"; "Hilbert"; "SFC";
    "Isotropy"; "Anisotropy"; "Voronoi"; "Truncated Octahedron";
    "Parity"; "Coordinate"; "Lattice"; "Sampling"; "Nyquist";
    "Galactic128"; "Index64"; "Route64"; "Hilbert64"; "Frame Registry";
    "Container"; "Streaming"; "Compression"; "Delta Encoding";
    "SIMD"; "AVX2"; "NEON"; "BMI2"; "GPU"; "CUDA"; "Metal"; "Vulkan";
    "Pathfinding"; "A*"; "Dijkstra"; "Occupancy Grid"; "SLAM";
    "Geospatial"; "WGS84"; "ECEF"; "ENU"; "GIS";
    "Molecular Dynamics"; "Crystallography"; "CFD";
    "Voxel"; "LOD"; "Level of Detail"; "Procedural Generation";
    "Distributed"; "Sharding"; "Arrow"; "Parquet";
    "Machine Learning"; "GNN"; "Point Cloud"; "PyTorch" ].

(** *** The book on disk

    A directory lists the sub-directories [os.walk] goes down into and its
    other entries, each in the order the system reports them; a file carries
    its text.  A symbolic link to a directory is no part of the tree: without
    [followlinks], [os.walk] lists it and does not go down into it, and no
    file is read through it.  The tree stands for the directory [book]; a
    missing [book] behaves as the empty one, and a [book] that is no
    directory is outside the model. *)
#[warnings="-register-all"] Inductive tree : Type :=
| Node (dirs : list (string * tree)) (files : list (string * string)).

(** A link of the index: chapter title and path relative to the book. *)
Definition link : Type := (string * string)%type.

(** [defaultdict(list)] from term to links, keys in insertion order. *)
Definition index : Type := list (string * list link).

Fixpoint dict_get (d : index) (k : string) : list link :=
  match d with
  | [] => []
  | (k', vs) :: r => if String.eqb k' k then vs else dict_get r k
  end.

(** [d[k].append(v)] *)
Fixpoint dict_append (d : index) (k : string) (v : link) : index :=
  match d with
  | [] => [(k, [v])]
  | (k', vs) :: r =>
      if String.eqb k' k then (k', (vs ++ [v])%list) :: r
      else (k', vs) :: dict_append r k v
  end.

Definition keys (d : index) : list string := map fst d.

(** [unique_links[title] = path] on a plain dict: a new title goes last, a
    known title keeps its place and takes the new path. *)
Fixpoint dict_set (d : list link) (k v : string) : list link :=
  match d with
  | [] => [(k, v)]
  | (k', v') :: r =>
      if String.eqb k' k then (k', v) :: r
      else (k', v') :: dict_set r k v
  end.

(** *** [get_title] *)

Definition get_title (path content : string) : string :=
  match find (fun line => startswith line "# ") (iter_lines content) with
  | Some line => strip (strip_chars "# " line)
  | None => basename path
  end.

(** *** [scan_files] *)

(** The regular expression of a term, as the scan builds it. *)
Definition term_pattern (term : string) : string :=
  "\b" ++ Re.escape term ++ "\b".

(** The test of the scan's [if]; a pattern outside the fragment of [Re] (there
    is none, see [term_pattern_parses]) counts as no match. *)
Definition term_hit (term content : string) : bool :=
  match Re.search_ignorecase (term_pattern term) content with
  | Some b => b
  | None => false
  end.

(** [os.walk(top)], top down, after the loop body has filtered [dirs] in
    place: the directories visited, in order, each with its files. *)
Fixpoint walk (top : string) (t : tree) : list (string * list (string * string)) :=
  match t with
  | Node dirs files =>
      (top, files) ::
      (fix visit (ds : list (string * tree)) : list (string * list (string * string)) :=
         match ds with
         | [] => []
         | (d, sub) :: rest =>
             ((if mem d IGNORE_DIRS then [] else walk (path_join top d) sub)
              ++ visit rest)%list
         end) dirs
  end.

(** The test that lets a file of the walk through to the scan. *)
Definition is_scanned_name (file : string) : bool :=
  negb (negb (endswith file ".md") || mem file IGNORE_FILES).

(** The inner loop over the vocabulary for one file. *)
Definition scan_terms (title link_path content : string) (idx : index) : index :=
  fold_left
    (fun idx term =>
       if term_hit term content then dict_append idx term (title, link_path)
       else idx)
    EXPLICIT_TERMS idx.

(** The body of the loop over the files of one directory. *)
Definition scan_file (root : string) (idx : index) (entry : string * string) : index :=
  let (file, content) := entry in
  if is_scanned_name file then
    let path := path_join root file in
    let rel_path := relpath path BOOK_DIR in
    let title := get_title path content in
    scan_terms title rel_path content idx
  else idx.

Definition scan_dir (idx : index) (visit : string * list (string * string)) : index :=
  fold_left (scan_file (fst visit)) (snd visit) idx.

Definition scan_files (book : tree) : index :=
  fold_left scan_dir (walk BOOK_DIR book) [].

(** *** [generate_index_md] *)

(** [sorted(keys, key=lambda s: s.lower())]: a stable sort, here by insertion. *)
Definition key_le (a b : string) : bool := String.leb (lower a) (lower b).

Fixpoint insert_sorted (x : string) (l : list string) : list string :=
  match l with
  | [] => [x]
  | y :: r => if key_le x y then x :: l else y :: insert_sorted x r
  end.

Fixpoint sorted_by_lower (l : list string) : list string :=
  match l with
  | [] => []
  | x :: r => insert_sorted x (sorted_by_lower r)
  end.

Definition unique_links (links : list link) : list link :=
  fold_left (fun d tp => dict_set d (fst tp) (snd tp)) links [].

Definition render_link (l : link) : string :=
  "[" ++ fst l ++ "](../" ++ snd l ++ ")".

Definition section_header (letter : string) : string :=
  nl ++ "## " ++ letter ++ nl ++ nl.

Definition term_line (term : string) (links : list link) : string :=
  "- **" ++ term ++ "**: " ++ join ", " (map render_link links) ++ nl.

(** The loop over the sorted terms; [None] is the [IndexError] of [term[0]]
    on an empty term. *)
Fixpoint index_loop (idx : index) (terms : list string)
    (current_letter md_content : string) : option string :=
  match terms with
  | [] => Some md_content
  | term :: rest =>
      match term with
      | EmptyString => None
      | String c _ =>
          let letter := String (upper_char c) EmptyString in
          let md_content :=
            if negb (String.eqb letter current_letter)
            then md_content ++ section_header letter
            else md_content in
          let links := dict_get idx term in
          index_loop idx rest letter
            (md_content ++ term_line term (unique_links links))
      end
  end.

Definition generate_index_md (idx : index) : option string :=
  index_loop idx (sorted_by_lower (keys idx)) "" ("# Index" ++ nl ++ nl).

(** *** [main]: what is printed and the file that is written *)

Record run : Type := {
  printed : list string;
  written : list (string * string)
}.

(** The sub-directory of a name, and whether a name is among the other
    entries of a directory. *)
Definition subdir (t : tree) (name : string) : option tree :=
  match t with
  | Node dirs _ =>
      option_map snd (find (fun e => String.eqb (fst e) name) dirs)
  end.

Definition has_entry (t : tree) (name : string) : bool :=
  match t with
  | Node _ files => mem name (map fst files)
  end.

(** Whether [os.makedirs(os.path.dirname(INDEX_FILE), exist_ok=True)] and
    [open(INDEX_FILE, 'w')] go through.  With a directory [back_matter] the
    first does nothing and the second raises [IsADirectoryError] when
    [index.md] is a directory in it.  Without one the first creates it, unless
    [back_matter] is an entry that is no directory: [FileExistsError]. *)
Definition index_file_writable (book : tree) : bool :=
  match subdir book "back_matter" with
  | Some back_matter =>
      match subdir back_matter "index.md" with
      | Some _ => false
      | None => true
      end
  | None => negb (has_entry book "back_matter")
  end.

(** [None] when [main] raises: in [generate_index_md], or while the index file
    is written. *)
Definition main (book : tree) : option run :=
  let index_data := scan_files book in
  match generate_index_md index_data with
  | Some content =>
      if index_file_writable book then
        Some {| printed :=
                  [ "Scanning book content in " ++ BOOK_DIR ++ "...";
                    "Found " ++ str_of_nat (List.length index_data) ++ " terms.";
                    "Index generated at " ++ INDEX_FILE ];
                written := [(INDEX_FILE, content)] |}
      else None
  | None => None
  end.

End BookIndex.

(** ** The figure generator, [scripts/generate_book_figures.py] *)

Module BookFigures.

(** *** What a run can observe and change

    The directories and files that exist, the lines printed, the image files
    the run has saved, and the number of calls made into matplotlib so far. *)
Record state : Type := {
  dirs : list string;
  files : list string;
  stdout : list string;
  saved : list string;
  calls : nat
}.

(** What a call can raise: an exception, that is an instance of [Exception],
    with what [str(e)] gives; or what derives from [BaseException] alone: a
    signal of the interpreter ([KeyboardInterrupt], [GeneratorExit]), or
    [SystemExit] with the exit status its code stands for (0 for [None]). *)
Inductive raised : Type :=
| Exception (message : string)
| Signal (name : string)
| SystemExit (status : nat).

Definition str (e : raised) : string :=
  match e with
  | Exception message => message
  | Signal _ => ""
  | SystemExit _ => ""
  end.

Inductive outcome (A : Type) : Type :=
| Returned (a : A)
| Raised (e : raised).
Arguments Returned {A} a.
Arguments Raised {A} e.

(** A computation: from a state to an outcome and the state it leaves. *)
Definition M (A : Type) : Type := state -> outcome A * state.

Definition ret {A} (a : A) : M A := fun s => (Returned a, s).

Definition bind {A B} (c : M A) (k : A -> M B) : M B :=
  fun s =>
    match c s with
    | (Returned a, s') => k a s'
    | (Raised e, s') => (Raised e, s')
    end.

Notation "c1 ;; c2" := (bind c1 (fun _ => c2))
  (at level 61, right associativity).

(** [try: body except Exception as e: handler(e)] *)
Definition try_except_Exception (body : M unit) (handler : raised -> M unit) : M unit :=
  fun s =>
    match body s with
    | (Returned a, s') => (Returned a, s')
    | (Raised e, s') =>
        match e with
        | Exception _ => handler e s'
        | Signal _ => (Raised e, s')
        | SystemExit _ => (Raised e, s')
        end
    end.

(** [print(line)] *)
Definition print (line : string) : M unit :=
  fun s =>
    (Returned tt,
     {| dirs := dirs s; files := files s;
        stdout := (stdout s ++ [line])%list;
        saved := saved s; calls := calls s |}).

(** *** The file system calls of [ensure_output_dir] *)

Definition path_exists (s : state) (path : string) : bool :=
  mem path (dirs s) || mem path (files s).

(** The path itself and the directories above it, outermost first. *)
Fixpoint path_prefixes (before path : string) : list string :=
  match path with
  | EmptyString => [before]
  | String c rest =>
      if Ascii.eqb c "/"
      then before :: path_prefixes (before ++ "/") rest
      else path_prefixes (before ++ String c EmptyString) rest
  end.

Definition add_path (l : list string) (path : string) : list string :=
  if mem path l then l else (l ++ [path])%list.

(** [os.mkdir(path)], with the directory above it when there is one: an
    [OSError] when the path exists already ([FileExistsError]) or when a file
    stands where the directory above should be ([NotADirectoryError]).  Missing
    rights and the like are not modelled. *)
Definition mkdir (above : option string) (path : string) : M unit :=
  fun s =>
    if path_exists s path
    then (Raised (Exception ("[Errno 17] File exists: '" ++ path ++ "'")), s)
    else if match above with
            | Some head => mem head (files s)
            | None => false
            end
    then (Raised (Exception ("[Errno 20] Not a directory: '" ++ path ++ "'")), s)
    else (Returned tt,
          {| dirs := (dirs s ++ [path])%list;
             files := files s; stdout := stdout s;
             saved := saved s; calls := calls s |}).

(** [os.makedirs(path)] on the path and the paths above it, innermost first:
    the directory above is made first when it does not exist, then the
    directory itself.  (The recursive call is wrapped in [except
    FileExistsError: pass], which cannot fire here: the directory above has
    just been found missing.) *)
Fixpoint makedirs_up (innermost_first : list string) : M unit :=
  match innermost_first with
  | [] => ret tt
  | name :: above =>
      (match above with
       | [] => ret tt
       | head :: _ =>
           fun s => if path_exists s head then (Returned tt, s)
                    else makedirs_up above s
       end) ;;
      mkdir (List.hd_error above) name
  end.

Definition makedirs (path : string) : M unit :=
  makedirs_up (rev (path_prefixes "" path)).

(** *** matplotlib

    The calls the script makes, and a backend that decides for each call, by
    its rank in the run, whether it raises. *)
Inductive plt_call : Type :=
| plt_figure | plt_bar | plt_title | plt_ylabel | plt_grid | plt_text
| bar_get_height | bar_get_x | bar_get_width
| plt_savefig (path : string)
| plt_close.

Definition backend : Type := nat -> plt_call -> option raised.

Definition count_call (s : state) : state :=
  {| dirs := dirs s; files := files s; stdout := stdout s;
     saved := saved s; calls := S (calls s) |}.

(** What a call that returns has changed: [savefig] writes its file. *)
Definition effect (c : plt_call) (s : state) : state :=
  match c with
  | plt_savefig path =>
      {| dirs := dirs s; files := add_path (files s) path;
         stdout := stdout s; saved := (saved s ++ [path])%list;
         calls := calls s |}
  | _ => s
  end.

Definition call (lib : backend) (c : plt_call) : M unit :=
  fun s =>
    match lib (calls s) c with
    | Some e => (Raised e, count_call s)
    | None => (Returned tt, effect c (count_call s))
    end.

(** *** The script *)

Definition OUTPUT_DIR : string := "book/images".

Definition ensure_output_dir : M unit :=
  fun s =>
    if negb (path_exists s OUTPUT_DIR) then makedirs OUTPUT_DIR s
    else (Returned tt, s).

(** [for bar in bars:] read the height, then place the label. *)
Fixpoint label_bars (lib : backend) (bars : list string) : M unit :=
  match bars with
  | [] => ret tt
  | _ :: rest =>
      call lib bar_get_height ;;
      call lib bar_get_x ;;
      call lib bar_get_width ;;
      call lib plt_text ;;
      label_bars lib rest
  end.

Definition neighbor_lookup_png : string := "benchmark_neighbor_lookup.png".
Definition memory_efficiency_png : string := "benchmark_memory_efficiency.png".
Definition isotropy_png : string := "benchmark_isotropy.png".

Definition plot_neighbor_lookup (lib : backend) : M unit :=
  let labels := ["Cubic (26-conn)"; "Octree"; "BCC (14-conn)"] in
  call lib plt_figure ;;
  call lib plt_bar ;;
  call lib plt_title ;;
  call lib plt_ylabel ;;
  call lib plt_grid ;;
  label_bars lib labels ;;
  call lib (plt_savefig (BookIndex.path_join OUTPUT_DIR neighbor_lookup_png)) ;;
  call lib plt_close.

Definition plot_memory_usage (lib : backend) : M unit :=
  let labels := ["Cubic Grid"; "BCC Lattice"] in
  call lib plt_figure ;;
  call lib plt_bar ;;
  call lib plt_title ;;
  call lib plt_ylabel ;;
  label_bars lib labels ;;
  call lib plt_text ;;
  call lib (plt_savefig (BookIndex.path_join OUTPUT_DIR memory_efficiency_png)) ;;
  call lib plt_close.

Definition plot_isotropy (lib : backend) : M unit :=
  let labels := ["Cubic (26-conn)"; "BCC (14-conn)"] in
  call lib plt_figure ;;
  call lib plt_bar ;;
  call lib plt_title ;;
  call lib plt_ylabel ;;
  label_bars lib labels ;;
  call lib (plt_savefig (BookIndex.path_join OUTPUT_DIR isotropy_png)) ;;
  call lib plt_close.

(** The body of the [try] and the [except] clause of [main]. *)
Definition plot_all (lib : backend) : M unit :=
  plot_neighbor_lookup lib ;;
  print ("Generated " ++ neighbor_lookup_png) ;;
  plot_memory_usage lib ;;
  print ("Generated " ++ memory_efficiency_png) ;;
  plot_isotropy lib ;;
  print ("Generated " ++ isotropy_png).

Definition report (e : raised) : M unit :=
  print ("Error generating plots: " ++ str e) ;;
  print "Ensure matplotlib is installed: pip install matplotlib".

Definition main (lib : backend) : M unit :=
  print ("Generating figures in " ++ OUTPUT_DIR ++ "...") ;;
  ensure_output_dir ;;
  try_except_Exception (plot_all lib) report.

(** The script calls [main()] and nothing else: the exit status is 0 when
    [main] returns; an uncaught exception ends the interpreter with status 1,
    [SystemExit] with the status of its code, and [KeyboardInterrupt] by the
    interrupt signal (130 to the shell, since Python 3.8). *)
Definition exit_status (o : outcome unit) : nat :=
  match o with
  | Returned _ => 0
  | Raised (Exception _) => 1
  | Raised (Signal name) =>
      if String.eqb name "KeyboardInterrupt" then 130 else 1
  | Raised (SystemExit status) => status
  end.

(** The state [main] reaches before the [try]. *)
Definition before_try (s : state) : state :=
  snd ((print ("Generating figures in " ++ OUTPUT_DIR ++ "...") ;;
        ensure_output_dir) s).

(** The state after the two lines of the [except] clause. *)
Definition reported (e : raised) (s : state) : state := snd (report e s).

Definition printed_line (line : string) (s : state) : state := snd (print line s).

(** A backend under which no call raises, and one whose [n]-th call raises. *)
Definition never_raises (lib : backend) : Prop := forall n c, lib n c = None.

Definition quiet : backend := fun _ _ => None.

Definition fails_at (n : nat) (e : raised) : backend :=
  fun k _ => if Nat.eqb k n then Some e else None.

Definition fresh : state :=
  {| dirs := []; files := []; stdout := []; saved := []; calls := 0 |}.

Definition figure_path (name : string) : string :=
  BookIndex.path_join OUTPUT_DIR name.

(** One of the three plotting calls of the [try] raises [e], leaving the state
    [s']; [remaining] are the figures whose plotting call comes after it.  The
    state [s] is one in which [main] enters the [try]: [ensure_output_dir] has
    returned, so the output path exists. *)
Inductive plot_fails (lib : backend) (s : state) (e : raised) (s' : state) :
    list string -> Prop :=
| fails_first :
    path_exists s OUTPUT_DIR = true ->
    plot_neighbor_lookup lib s = (Raised e, s') ->
    plot_fails lib s e s'
      [figure_path memory_efficiency_png; figure_path isotropy_png]
| fails_second s1 :
    path_exists s OUTPUT_DIR = true ->
    plot_neighbor_lookup lib s = (Returned tt, s1) ->
    plot_memory_usage lib (printed_line ("Generated " ++ neighbor_lookup_png) s1)
      = (Raised e, s') ->
    plot_fails lib s e s' [figure_path isotropy_png]
| fails_third s1 s2 :
    path_exists s OUTPUT_DIR = true ->
    plot_neighbor_lookup lib s = (Returned tt, s1) ->
    plot_memory_usage lib (printed_line ("Generated " ++ neighbor_lookup_png) s1)
      = (Returned tt, s2) ->
    plot_isotropy lib (printed_line ("Generated " ++ memory_efficiency_png) s2)
      = (Raised e, s') ->
    plot_fails lib s e s' [].

(** A computation that takes every state to one related to it by [R]. *)
Definition respects {A} (R : state -> state -> Prop) (c : M A) : Prop :=
  forall s o s', c s = (o, s') -> R s s'.

Definition same_dirs (s s' : state) : Prop := dirs s' = dirs s.

(** The run has saved, since [s], files of [allowed] only. *)
Definition saved_within (allowed : list string) (s s' : state) : Prop :=
  exists l, saved s' = (saved s ++ l)%list /\ incl l allowed.

Definition import_error : raised := Exception "No module named 'matplotlib'".

Definition keyboard_interrupt : raised := Signal "KeyboardInterrupt".

End BookFigures.

(** ** Notions the statements below are written with *)

Module Notions.
Import Re BookIndex.

(** The atoms of a term taken literally. *)
Definition literals (s : string) : list atom :=
  map Literal (list_ascii_of_string s).

(** The last character of [s], or [prev] when [s] is empty. *)
Definition last_or (prev : option ascii) (s : string) : option ascii :=
  fold_left (fun _ c => Some c) (list_ascii_of_string s) prev.

Definition last_char (s : string) : option ascii := last_or None s.

(** *** Whole-word occurrence, in the words of the specification

    A word boundary lies between two neighbours of which exactly one is a word
    character; the start and the end of the text count as no word character. *)
Definition word_side (c : option ascii) : Prop :=
  match c with
  | Some a => is_word_char a = true
  | None => False
  end.

Definition word_boundary (before after : option ascii) : Prop :=
  (word_side before /\ ~ word_side after) \/ (~ word_side before /\ word_side after).

Definition same_ignoring_case (a b : string) : Prop := lower a = lower b.

(** [text] contains [term] as a whole word: an occurrence of the term, up to
    case, with a word boundary at each of its ends. *)
Definition contains_whole_word (term text : string) : Prop :=
  exists pre mid post,
    text = pre ++ mid ++ post /\
    same_ignoring_case mid term /\
    word_boundary (last_char pre) (head (mid ++ post)) /\
    word_boundary (last_char (pre ++ mid)) (head post).

(** *** The files the scan reads

    The files of a visited directory that pass the test of the loop, each with
    the title, the link path and the text the scan uses for it. *)
Record scanned_file : Type := {
  sf_path : string;
  sf_title : string;
  sf_link : string;
  sf_content : string
}.

Definition scanned_entry (root : string) (entry : string * string) : scanned_file :=
  let path := path_join root (fst entry) in
  {| sf_path := path;
     sf_title := get_title path (snd entry);
     sf_link := relpath path BOOK_DIR;
     sf_content := snd entry |}.

Definition scanned_in_dir (visit : string * list (string * string)) : list scanned_file :=
  map (scanned_entry (fst visit))
      (filter (fun entry => is_scanned_name (fst entry)) (snd visit)).

Definition scanned (book : tree) : list scanned_file :=
  flat_map scanned_in_dir (walk BOOK_DIR book).

Definition link_of (f : scanned_file) : link := (sf_title f, sf_link f).

(** The links the scan appends for a term over a list of files. *)
Definition hit_links (term : string) (files : list scanned_file) : list link :=
  map link_of (filter (fun f => term_hit term (sf_content f)) files).

(** One step of the loop that fills [unique_links]. *)
Definition set_link (d : list link) (tp : link) : list link :=
  dict_set d (fst tp) (snd tp).

(** One step of the loop over the vocabulary, for a file of the given title,
    link path and text. *)
Definition scan_step (title link_path content : string)
    (idx : index) (term : string) : index :=
  if term_hit term content then dict_append idx term (title, link_path) else idx.

(** The keys of the index stay distinct terms of the vocabulary. *)
Definition keys_ok (idx : index) : Prop :=
  NoDup (keys idx) /\ incl (keys idx) EXPLICIT_TERMS.

(** A book of one file in its root directory. *)
Definition one_file_book (file content : string) : tree :=
  Node [] [(file, content)].

(** *** Where a file lies in the book

    [located book ds file content]: going down the directories [ds] from the
    root of the book leads to a directory that lists [file] with [content]. *)
Inductive located : tree -> list string -> string -> string -> Prop :=
| located_here dirs files file content :
    In (file, content) files -> located (Node dirs files) [] file content
| located_below dirs files d sub ds file content :
    In (d, sub) dirs -> located sub ds file content ->
    located (Node dirs files) (d :: ds) file content.

Definition dir_path (top : string) (ds : list string) : string :=
  fold_left path_join ds top.

Definition file_path (ds : list string) (file : string) : string :=
  path_join (dir_path BOOK_DIR ds) file.

(** A file the scan must leave out: below an ignored directory, of an ignored
    name, or not a markdown file. *)
Definition excluded (ds : list string) (file : string) : Prop :=
  (exists d, In d ds /\ In d IGNORE_DIRS)
  \/ In file IGNORE_FILES
  \/ endswith file ".md" = false.

(** Names of directory entries are not empty and hold no slash. *)
Definition name_ok (n : string) : bool :=
  negb (String.eqb n "") && negb (has_char "/" n).

Fixpoint well_named (t : tree) : bool :=
  match t with
  | Node dirs files =>
      forallb (fun e => name_ok (fst e)) files
      && (fix all (ds : list (string * tree)) : bool :=
            match ds with
            | [] => true
            | (d, sub) :: rest => name_ok d && well_named sub && all rest
            end) dirs
  end.

(** The components of a path, each after a slash. *)
Fixpoint slashed (names : list string) : string :=
  match names with
  | [] => ""
  | n :: rest => "/" ++ n ++ slashed rest
  end.

(** A book with an ignored directory, an ignored file and a text file. *)
Definition book_with_exclusions : tree :=
  Node [("images", Node [] [("fig.md", "# Figure" ++ nl ++ "Octree" ++ nl)]);
        ("part1", Node [] [("index.md", "Octree"); ("notes.txt", "Octree");
                           ("ch1.md", "# One" ++ nl ++ "Octree" ++ nl)])]
       [("SUMMARY.md", "Octree")].

(** A book of one chapter that names four terms under three letters. *)
Definition three_letter_book : tree :=
  one_file_book "ch1.md"
    ("# Chapter One" ++ nl ++ nl ++ "GPU and Geospatial; a BCC lattice." ++ nl).

(** A book in which a file named back_matter is in the way of the index. *)
Definition book_with_file_back_matter : tree :=
  Node [] [("back_matter", "x")].

(** A book with two chapters of the same title, both naming the Octree. *)
Definition same_title_book : tree :=
  Node [("part1", Node [] [("b.md", "# Intro" ++ nl ++ "Octree again." ++ nl)])]
       [("a.md", "# Intro" ++ nl ++ "An Octree." ++ nl)].

(** *** The title, in the words of the specification

    The first line that starts a level-one heading, with the heading marker
    (the two characters [# ]) taken off and the white space around the rest
    trimmed; the base filename when no line starts a heading. *)
Definition is_heading (line : string) : bool := startswith line "# ".

Definition heading_text (line : string) : string := strip (drop 2 line).

Definition claimed_title (path content : string) : string :=
  match find is_heading (iter_lines content) with
  | Some line => heading_text line
  | None => basename path
  end.

(** A title that neither starts nor ends with a hash or white space. *)
Definition edge_ok (c : option ascii) : Prop :=
  match c with
  | Some a => is_space a = false /\ a <> "#"%char
  | None => False
  end.

Definition plain_title (t : string) : Prop :=
  edge_ok (head t) /\ edge_ok (last_char t).

(** *** The generated page as a list of blocks

    [generate_index_md] appends to [md_content] a section header or a term
    line at a time; [document] is the list of those blocks, [render] the text
    they add up to. *)
Inductive item : Type :=
| Header (letter : string)
| TermLine (term : string) (links : list link).

Definition render_item (i : item) : string :=
  match i with
  | Header letter => section_header letter
  | TermLine term links => term_line term links
  end.

Fixpoint render (doc : list item) : string :=
  match doc with
  | [] => ""
  | i :: rest => render_item i ++ render rest
  end.

Definition letter_of (term : string) : string :=
  match term with
  | EmptyString => EmptyString
  | String c _ => String (upper_char c) EmptyString
  end.

Fixpoint document_loop (idx : index) (terms : list string)
    (current_letter : string) : list item :=
  match terms with
  | [] => []
  | term :: rest =>
      let letter := letter_of term in
      let line := TermLine term (unique_links (dict_get idx term)) in
      if negb (String.eqb letter current_letter)
      then Header letter :: line :: document_loop idx rest letter
      else line :: document_loop idx rest letter
  end.

Definition document (idx : index) : list item :=
  document_loop idx (sorted_by_lower (keys idx)) "".

Definition page_title : string := "# Index" ++ nl ++ nl.

Definition is_term_line (i : item) : Prop :=
  match i with
  | TermLine _ _ => True
  | Header _ => False
  end.

(** The terms of the term lines and the letters of the headers, in order. *)
Fixpoint terms_of (doc : list item) : list string :=
  match doc with
  | [] => []
  | TermLine t _ :: rest => t :: terms_of rest
  | Header _ :: rest => terms_of rest
  end.

Fixpoint letters_of (doc : list item) : list string :=
  match doc with
  | [] => []
  | Header l :: rest => l :: letters_of rest
  | TermLine _ _ :: rest => letters_of rest
  end.

(** The line of [term] with [links] stands in the section of [letter]: after
    that section's header, with term lines only in between. *)
Definition in_section (doc : list item) (letter term : string) (links : list link) : Prop :=
  exists before between after,
    doc = (before ++ Header letter :: between ++ TermLine term links :: after)%list
    /\ Forall is_term_line between.

(** Case-insensitive order, as [sorted] with [key=lower] compares. *)
Definition key_lt (a b : string) : bool := String.ltb (lower a) (lower b).

Definition le (a b : string) : Prop := key_le a b = true.
Definition lt (a b : string) : Prop := key_lt a b = true.

(** The path a link was last given for a title: [path] belongs to the last
    pair of [links] with that [title]. *)
Definition last_path_of (links : list link) (title path : string) : Prop :=
  exists before after,
    links = (before ++ (title, path) :: after)%list /\
    ~ In title (map fst after).

(** *** Notions for the further properties *)

(** Every key of the index has at least one link. *)
Definition values_nonempty (idx : index) : Prop :=
  Forall (fun kv => snd kv <> []) idx.

(** The book without what the scan passes over: the ignored directories, at
    every depth, and the files whose names the loop skips. *)
Fixpoint prune (t : tree) : tree :=
  match t with
  | Node dirs files =>
      Node ((fix go (ds : list (string * tree)) : list (string * tree) :=
               match ds with
               | [] => []
               | (d, sub) :: rest =>
                   if mem d IGNORE_DIRS then go rest
                   else (d, prune sub) :: go rest
               end) dirs)
           (filter (fun entry => is_scanned_name (fst entry)) files)
  end.

(** A visit of the walk with the skipped files left out. *)
Definition scanned_only (visit : string * list (string * string))
    : string * list (string * string) :=
  (fst visit, filter (fun entry => is_scanned_name (fst entry)) (snd visit)).

(** [r] is a contiguous part of [s]. *)
Definition part_of (r s : string) : Prop := exists u v, s = u ++ r ++ v.

(** A character that [p] rejects, if there is one; with [is_space] for [p], a
    character that is not white space. *)
Definition not_space_by (p : ascii -> bool) (c : option ascii) : Prop :=
  match c with
  | Some a => p a = false
  | None => True
  end.

Definition not_space (c : option ascii) : Prop := not_space_by is_space c.

(** A book with one chapter that names no term, and an index with an empty
    key. *)
Definition book_without_terms : tree :=
  Node [] [("intro.md", "# Welcome" ++ nl ++ "Nothing to see." ++ nl)].

Definition index_with_empty_key : index :=
  [("Octree", [("One", "one.md")]); ("", [("Two", "two.md")])].

End Notions.
Import Notions.

(** ** Notions for the further properties of the figure generator *)

Module FigureNotions.
Import BookFigures.

Definition figure_names : list string :=
  [neighbor_lookup_png; memory_efficiency_png; isotropy_png].

Definition all_figures : list string := map figure_path figure_names.

(** From [s] to [s'] nothing was removed: files were saved from [allowed]
    only, the files and directories of [s] are still there, every new file
    is one of [allowed], and the output was only added to. *)
Definition only_adds (allowed : list string) (s s' : state) : Prop :=
  (exists l, saved s' = (saved s ++ l)%list /\ incl l allowed)
  /\ incl (files s) (files s')
  /\ (forall f, In f (files s') -> In f (files s) \/ In f allowed)
  /\ incl (dirs s) (dirs s')
  /\ exists out, stdout s' = (stdout s ++ out)%list.

Definition same_stdout (s s' : state) : Prop := stdout s' = stdout s.

(** The state [s] with other directories. *)
Definition with_dirs (s : state) (ds : list string) : state :=
  {| dirs := ds; files := files s; stdout := stdout s;
     saved := saved s; calls := calls s |}.

(** The directories after [os.makedirs] has made book/images, and book when
    it was missing. *)
Definition made_dirs (s : state) : list string :=
  if path_exists s "book" then (dirs s ++ [OUTPUT_DIR])%list
  else ((dirs s ++ ["book"]) ++ [OUTPUT_DIR])%list.

(** What [os.makedirs] raises when a file named book is in the way. *)
Definition not_a_directory : raised :=
  Exception "[Errno 20] Not a directory: 'book/images'".

(** A state in which book is a file. *)
Definition state_with_file_book : state :=
  {| dirs := []; files := ["book"]; stdout := []; saved := []; calls := 0 |}.

(** The progress line of a figure. *)
Definition generated_line (name : string) : string := "Generated " ++ name.

(** What one plotting call does: it prints nothing, removes nothing, and when
    it returns its figure has been saved. *)
Definition plots (name : string) (plot : M unit) : Prop :=
  forall s o s',
    plot s = (o, s') ->
    stdout s' = stdout s
    /\ only_adds all_figures s s'
    /\ (o = Returned tt ->
        In (figure_path name) (saved s') /\ In (figure_path name) (files s')).

End FigureNotions.
Import FigureNotions.

(** * Properties *)

(** ** Facts about characters and strings *)

Ltac each_char c := destruct c as [[] [] [] [] [] [] [] []].

Lemma special_not_alnum (c : ascii) :
  Re.is_special c = true -> Ascii.eqb c "b" = false /\ is_ascii_alnum c = false.
Proof. each_char c; vm_compute; intuition congruence. Qed.

Lemma plain_not_meta (c : ascii) :
  Re.is_special c = false -> Ascii.eqb c "\" = false /\ Re.is_meta c = false.
Proof. each_char c; vm_compute; intuition congruence. Qed.

Lemma upper_lower_char (a b : ascii) :
  upper_char a = upper_char b <-> lower_char a = lower_char b.
Proof.
  assert (H : forallb (fun x => forallb (fun y =>
                Bool.eqb (Ascii.eqb (upper_char (ascii_of_nat x)) (upper_char (ascii_of_nat y)))
                         (Ascii.eqb (lower_char (ascii_of_nat x)) (lower_char (ascii_of_nat y))))
                (seq 0 256)) (seq 0 256) = true) by (vm_compute; reflexivity).
  rewrite forallb_forall in H.
  specialize (H (nat_of_ascii a)).
  rewrite forallb_forall in H.
  assert (Ha : In (nat_of_ascii a) (seq 0 256))
    by (apply in_seq; pose proof (nat_ascii_bounded a); lia).
  assert (Hb : In (nat_of_ascii b) (seq 0 256))
    by (apply in_seq; pose proof (nat_ascii_bounded b); lia).
  specialize (H Ha _ Hb).
  rewrite !ascii_nat_embedding in H.
  apply Bool.eqb_prop in H.
  rewrite <- !Ascii.eqb_eq. rewrite H. tauto.
Qed.

Lemma append_assoc (a b c : string) : (a ++ b) ++ c = a ++ (b ++ c).
Proof. induction a as [|x a IH]; simpl; [reflexivity | now rewrite IH]. Qed.

Lemma append_empty_r (a : string) : a ++ "" = a.
Proof. induction a as [|x a IH]; simpl; [reflexivity | now rewrite IH]. Qed.

Lemma lower_cons (c : ascii) (s : string) :
  lower (String c s) = String (lower_char c) (lower s).
Proof. reflexivity. Qed.

Lemma lower_app (a b : string) : lower (a ++ b) = lower a ++ lower b.
Proof.
  unfold lower. induction a as [|x a IH]; simpl; [reflexivity | now rewrite IH].
Qed.

Lemma endswith_inv (s suffix : string) :
  endswith s suffix = true -> exists a, s = a ++ suffix.
Proof.
  induction s as [|c r IH]; intros H.
  - destruct suffix; [exists ""; reflexivity | simpl in H; discriminate].
  - cbn [endswith] in H.
    destruct (String.eqb_spec (String c r) suffix) as [E|_].
    + exists "". now rewrite E.
    + destruct (IH H) as [a ->]. exists (String c a). reflexivity.
Qed.

Lemma mem_In (s : string) (l : list string) : mem s l = true <-> In s l.
Proof.
  unfold mem. rewrite existsb_exists. split.
  - intros [x [Hin Heq]]. apply String.eqb_eq in Heq. now subst.
  - intros Hin. exists s. split; [assumption | apply String.eqb_refl].
Qed.

(** ** The regular expression of a term *)

Module ReFacts.
Import Re.

Lemma parse_escape_then (t rest : string) (atoms : list atom) :
  parse rest = Some atoms ->
  parse (escape t ++ rest) = Some (literals t ++ atoms)%list.
Proof.
  intros Hrest. induction t as [|c t IH]; simpl; [assumption|].
  destruct (is_special c) eqn:Hs.
  - destruct (special_not_alnum c Hs) as [Hb Ha].
    simpl. rewrite Hb, Ha, IH. reflexivity.
  - destruct (plain_not_meta c Hs) as [Hb Hm].
    simpl. rewrite Hb, Hm, IH. reflexivity.
Qed.

(** [re.escape] round trip: the escaped term parses to its own characters. *)
Lemma parse_escape (t : string) : parse (escape t) = Some (literals t).
Proof.
  rewrite <- (append_empty_r (escape t)).
  rewrite (parse_escape_then t "" []); [|reflexivity].
  now rewrite app_nil_r.
Qed.

Lemma last_or_cons prev c s : last_or prev (String c s) = last_or (Some c) s.
Proof. reflexivity. Qed.

Lemma last_or_app prev a b : last_or prev (a ++ b) = last_or (last_or prev a) b.
Proof.
  revert prev. induction a as [|x a IH]; intros prev; simpl; [reflexivity|].
  rewrite !last_or_cons. apply IH.
Qed.

(** The literals of a term followed by [\b], at one position. *)
Lemma match_literals_boundary (t : string) :
  forall prev s,
    match_here (literals t ++ [Boundary])%list prev s = true <->
    exists mid post, s = mid ++ post /\ lower mid = lower t /\
                     at_boundary (last_or prev mid) (head post) = true.
Proof.
  induction t as [|c t IH]; intros prev s; simpl.
  - rewrite andb_true_r. split.
    + intros H. exists "", s. auto.
    + intros (mid & post & -> & Hl & Hb).
      destruct mid; [exact Hb | discriminate].
  - destruct s as [|d s].
    + split; [discriminate|].
      intros (mid & post & Hs & Hl & _).
      destruct mid; simpl in *; discriminate.
    + rewrite andb_true_iff. fold (literals t). rewrite IH. split.
      * intros [Hc (mid & post & -> & Hl & Hb)].
        exists (String d mid), post.
        unfold ci_eqb in Hc. apply Ascii.eqb_eq in Hc.
        rewrite !lower_cons, Hl, Hc. auto.
      * intros (mid & post & Hs & Hl & Hb).
        destruct mid as [|m mid]; [discriminate|].
        simpl in Hs. injection Hs as -> ->.
        rewrite !lower_cons in Hl. injection Hl as Hc Hl.
        split.
        -- unfold ci_eqb. rewrite Hc. apply Ascii.eqb_refl.
        -- exists mid, post. auto.
Qed.

Lemma term_pattern_parses (term : string) :
  parse (BookIndex.term_pattern term)
  = Some (Boundary :: literals term ++ [Boundary])%list.
Proof.
  unfold BookIndex.term_pattern.
  change ("\b" ++ escape term ++ "\b")
    with (String "\" (String "b" (escape term ++ "\b"))).
  cbn [parse]. change (Ascii.eqb "\" "\") with true.
  change (Ascii.eqb "b" "b") with true. cbv iota.
  rewrite (parse_escape_then term "\b" [Boundary]); reflexivity.
Qed.

(** [re.search] finds a match exactly when some position has one. *)
Lemma search_from_iff (atoms : list atom) :
  forall prev s,
    search_from atoms prev s = true <->
    exists pre rest, s = pre ++ rest /\
                     match_here atoms (last_or prev pre) rest = true.
Proof.
  intros prev s. revert prev. induction s as [|d s IH]; intros prev; simpl.
  - rewrite orb_false_r. split.
    + intros H. exists "", "". auto.
    + intros (pre & rest & Hs & Hm).
      destruct pre; [|discriminate]. simpl in Hs. subst rest. exact Hm.
  - rewrite orb_true_iff, IH. split.
    + intros [H | (pre & rest & -> & Hm)].
      * exists "", (String d s). auto.
      * exists (String d pre), rest. auto.
    + intros (pre & rest & Hs & Hm).
      destruct pre as [|p pre]; simpl in Hs.
      * left. subst rest. exact Hm.
      * right. injection Hs as -> ->. exists pre, rest. auto.
Qed.

End ReFacts.

(** ** The test of the scan is whole-word occurrence *)

Module HitFacts.
Import Re ReFacts BookIndex.

Lemma word_opt_side (c : option ascii) : word_opt c = true <-> word_side c.
Proof. destruct c; simpl; [tauto | split; [discriminate | tauto]]. Qed.

Lemma at_boundary_iff (a b : option ascii) :
  at_boundary a b = true <-> word_boundary a b.
Proof.
  unfold at_boundary, word_boundary.
  rewrite <- !word_opt_side.
  destruct (word_opt a), (word_opt b); simpl; intuition congruence.
Qed.

Lemma term_hit_search (term content : string) :
  term_hit term content
  = search_from (Boundary :: literals term ++ [Boundary])%list None content.
Proof.
  unfold term_hit, search_ignorecase. now rewrite term_pattern_parses.
Qed.

Lemma term_hit_iff (term content : string) :
  term_hit term content = true <-> contains_whole_word term content.
Proof.
  rewrite term_hit_search, search_from_iff. unfold contains_whole_word.
  split.
  - intros (pre & rest & -> & Hm).
    cbn [match_here] in Hm. apply andb_true_iff in Hm as [Hb Hm].
    apply match_literals_boundary in Hm as (mid & post & -> & Hl & Hb').
    exists pre, mid, post. rewrite <- last_or_app in Hb'.
    rewrite at_boundary_iff in Hb, Hb'. auto.
  - intros (pre & mid & post & -> & Hl & Hb & Hb').
    exists pre, (mid ++ post). split; [reflexivity|].
    cbn [match_here]. apply andb_true_iff. split.
    + now apply at_boundary_iff.
    + apply match_literals_boundary. exists mid, post.
      rewrite <- last_or_app, at_boundary_iff. auto.
Qed.

End HitFacts.

(** ** What the scan records *)

Module ScanFacts.
Import BookIndex HitFacts.

Lemma dict_get_append (d : index) (k k' : string) (v : link) :
  dict_get (dict_append d k v) k'
  = if String.eqb k k' then (dict_get d k ++ [v])%list else dict_get d k'.
Proof.
  induction d as [|[k0 vs] d IH]; simpl.
  - destruct (String.eqb_spec k k'); reflexivity.
  - destruct (String.eqb_spec k0 k) as [->|Hk0]; simpl.
    + destruct (String.eqb_spec k k'); [reflexivity|reflexivity].
    + destruct (String.eqb_spec k0 k') as [->|Hk0'].
      * destruct (String.eqb_spec k k'); [congruence | reflexivity].
      * exact IH.
Qed.

Lemma keys_append (d : index) (k : string) (v : link) :
  keys (dict_append d k v)
  = if mem k (keys d) then keys d else (keys d ++ [k])%list.
Proof.
  induction d as [|[k0 vs] d IH]; simpl; [reflexivity|].
  rewrite (String.eqb_sym k k0).
  destruct (String.eqb_spec k0 k) as [->|Hk0]; simpl; [reflexivity|].
  unfold keys in *. rewrite IH.
  fold (mem k (map fst d)). destruct (mem k (map fst d)); reflexivity.
Qed.

Lemma keys_ok_append idx k v :
  keys_ok idx -> In k EXPLICIT_TERMS -> keys_ok (dict_append idx k v).
Proof.
  intros [Hnd Hin] Hk. unfold keys_ok. rewrite keys_append.
  destruct (mem k (keys idx)) eqn:Hm; [split; assumption|].
  split.
  - apply NoDup_app; [assumption | repeat constructor; simpl; tauto |].
    intros x Hx [<-|[]]. apply mem_In in Hx. congruence.
  - apply incl_app; [assumption|]. intros x [<-|[]]. assumption.
Qed.

Lemma scan_terms_fold_get (title link_path content : string) (terms : list string) :
  NoDup terms ->
  forall idx term,
    dict_get (fold_left (scan_step title link_path content) terms idx) term
    = (dict_get idx term
       ++ if mem term terms && term_hit term content
          then [(title, link_path)] else [])%list.
Proof.
  induction 1 as [|t terms Hnot Hnd IH]; intros idx term; simpl.
  - now rewrite app_nil_r.
  - rewrite IH. unfold scan_step.
    destruct (String.eqb_spec term t) as [->|Hne]; simpl.
    + assert (Hm : mem t terms = false).
      { destruct (mem t terms) eqn:Hm; [|reflexivity].
        apply mem_In in Hm. contradiction. }
      rewrite Hm. simpl. rewrite app_nil_r.
      destruct (term_hit t content); [|now rewrite app_nil_r].
      rewrite dict_get_append, String.eqb_refl. reflexivity.
    + destruct (term_hit t content); [|reflexivity].
      rewrite dict_get_append.
      destruct (String.eqb_spec t term); [congruence | reflexivity].
Qed.

Lemma scan_terms_fold_keys (title link_path content : string) (terms : list string) :
  incl terms EXPLICIT_TERMS ->
  forall idx, keys_ok idx ->
              keys_ok (fold_left (scan_step title link_path content) terms idx).
Proof.
  induction terms as [|t terms IH]; intros Hin idx Hok; simpl; [assumption|].
  apply IH.
  - intros x Hx. apply Hin. now right.
  - unfold scan_step. destruct (term_hit t content); [|assumption].
    apply keys_ok_append; [assumption|]. apply Hin. now left.
Qed.

Lemma EXPLICIT_TERMS_NoDup : NoDup EXPLICIT_TERMS.
Proof.
  apply (NoDup_count_occ string_dec). intros x.
  assert (H : forallb (fun t => (count_occ string_dec EXPLICIT_TERMS t <=? 1)%nat)
                      EXPLICIT_TERMS = true) by (vm_compute; reflexivity).
  destruct (in_dec string_dec x EXPLICIT_TERMS) as [Hin|Hnot].
  - rewrite forallb_forall in H. apply Nat.leb_le. now apply H.
  - apply (count_occ_not_In string_dec) in Hnot. lia.
Qed.

Lemma scan_terms_get title link_path content idx term :
  dict_get (scan_terms title link_path content idx) term
  = (dict_get idx term
     ++ if mem term EXPLICIT_TERMS && term_hit term content
        then [(title, link_path)] else [])%list.
Proof. apply scan_terms_fold_get, EXPLICIT_TERMS_NoDup. Qed.

Lemma scan_dir_get (visit : string * list (string * string)) :
  forall idx term,
    In term EXPLICIT_TERMS ->
    dict_get (scan_dir idx visit) term
    = (dict_get idx term ++ hit_links term (scanned_in_dir visit))%list.
Proof.
  destruct visit as [root files]. unfold scan_dir, scanned_in_dir.
  cbn [fst snd]. intros idx term Hin.
  pose proof (proj2 (mem_In _ _) Hin) as Hm. clear Hin. revert idx.
  induction files as [|[file content] files IH]; intros idx;
    cbn [fold_left filter fst snd].
  - unfold hit_links. simpl. now rewrite app_nil_r.
  - rewrite IH. unfold scan_file.
    destruct (is_scanned_name file); [|reflexivity].
    rewrite scan_terms_get, Hm. cbn [andb map].
    unfold hit_links. cbn [filter scanned_entry sf_content snd].
    destruct (term_hit term content); cbn [map].
    + now rewrite <- app_assoc.
    + now rewrite app_nil_r.
Qed.

Lemma scan_dir_keys (visit : string * list (string * string)) :
  forall idx, keys_ok idx -> keys_ok (scan_dir idx visit).
Proof.
  destruct visit as [root files]. unfold scan_dir. simpl.
  induction files as [|[file content] files IH]; intros idx Hok; simpl;
    [assumption|].
  apply IH. unfold scan_file.
  destruct (is_scanned_name file); [|assumption].
  apply scan_terms_fold_keys; [apply incl_refl | assumption].
Qed.

Lemma scan_visits_get (visits : list (string * list (string * string))) :
  forall idx term,
    In term EXPLICIT_TERMS ->
    dict_get (fold_left scan_dir visits idx) term
    = (dict_get idx term ++ hit_links term (flat_map scanned_in_dir visits))%list.
Proof.
  induction visits as [|v visits IH]; intros idx term Hin; simpl.
  - unfold hit_links. simpl. now rewrite app_nil_r.
  - rewrite (IH _ _ Hin), (scan_dir_get _ _ _ Hin).
    unfold hit_links. rewrite filter_app, map_app. now rewrite <- app_assoc.
Qed.

(** The links recorded for a term of the vocabulary: one for each scanned file
    the term hits, in the order of the scan. *)
Lemma scan_files_get (book : tree) (term : string) :
  In term EXPLICIT_TERMS ->
  dict_get (scan_files book) term = hit_links term (scanned book).
Proof. intros Hin. unfold scan_files. now rewrite scan_visits_get. Qed.

Lemma scan_files_keys_ok (book : tree) : keys_ok (scan_files book).
Proof.
  unfold scan_files.
  assert (H : forall visits idx, keys_ok idx -> keys_ok (fold_left scan_dir visits idx)).
  { induction visits as [|v visits IH]; intros idx Hok; simpl; [assumption|].
    apply IH, scan_dir_keys, Hok. }
  apply H. split; [constructor | intros x []].
Qed.

End ScanFacts.

(** ** Term matching *)

Module Matching.
Import Re ReFacts BookIndex HitFacts ScanFacts.

Lemma lower_char_word (c : ascii) : is_word_char (lower_char c) = is_word_char c.
Proof. each_char c; vm_compute; reflexivity. Qed.

Lemma last_or_lower (a b : string) :
  lower a = lower b ->
  forall p q, word_opt p = word_opt q ->
              word_opt (last_or p a) = word_opt (last_or q b).
Proof.
  revert b. induction a as [|x a IH]; intros [|y b] H p q Hpq;
    try discriminate; [exact Hpq|].
  rewrite !lower_cons in H. injection H as Hc Hl.
  rewrite !last_or_cons. apply IH; [assumption|]. simpl.
  rewrite <- (lower_char_word x), <- (lower_char_word y). now rewrite Hc.
Qed.

Lemma last_or_nonempty p c s : last_or p (String c s) = last_char (String c s).
Proof. reflexivity. Qed.

Lemma lower_nonempty (a : string) c t :
  lower a = lower (String c t) -> exists x a', a = String x a'.
Proof. destruct a as [|x a']; [discriminate | eauto]. Qed.

(** C2.  For a term of the vocabulary the scan records one link per scanned
    file whose text passes the test, in scan order, and a text passes the
    test exactly when it contains the term as a whole word, up to case, between
    word boundaries.  A file reading "The BCCX grid" records nothing for "BCC";
    a file reading "a bcc grid" records its link for "BCC". *)
Theorem C2_hit_iff_whole_word :
  (forall (book : tree) (term : string),
      In term EXPLICIT_TERMS ->
      dict_get (scan_files book) term
      = map link_of (filter (fun f => term_hit term (sf_content f)) (scanned book))
      /\ (forall f, In f (scanned book) ->
                    (term_hit term (sf_content f) = true
                     <-> contains_whole_word term (sf_content f)))
      /\ (forall l, In l (dict_get (scan_files book) term)
                    <-> exists f, In f (scanned book) /\ l = link_of f
                                  /\ contains_whole_word term (sf_content f)))
  /\ (forall content, ~ contains_whole_word "BCC" content ->
                      term_hit "BCC" content = false)
  /\ dict_get (scan_files (one_file_book "ch.md" "The BCCX grid")) "BCC" = []
  /\ dict_get (scan_files (one_file_book "ch.md" "a bcc grid")) "BCC"
     = [("ch.md", "ch.md")].
Proof.
  split; [|split; [|split]].
  - intros book term Hin. rewrite (scan_files_get book term Hin).
    split; [reflexivity|]. split.
    + intros f _. apply term_hit_iff.
    + intros l. unfold hit_links. rewrite in_map_iff. split.
      * intros (f & <- & Hf). apply filter_In in Hf as [Hf Hh].
        exists f. rewrite <- term_hit_iff. auto.
      * intros (f & Hf & -> & Hw). exists f. split; [reflexivity|].
        apply filter_In. rewrite term_hit_iff. auto.
  - intros content Hno. destruct (term_hit "BCC" content) eqn:Hh; [|reflexivity].
    apply term_hit_iff in Hh. contradiction.
  - vm_compute. reflexivity.
  - vm_compute. reflexivity.
Qed.

Lemma C2_hit_iff_whole_word_witness :
  In "BCC" EXPLICIT_TERMS /\
  dict_get (scan_files (one_file_book "ch.md" "a bcc grid")) "BCC"
  = map link_of (filter (fun f => term_hit "BCC" (sf_content f))
                        (scanned (one_file_book "ch.md" "a bcc grid"))).
Proof.
  assert (Hin : In "BCC" EXPLICIT_TERMS) by (left; reflexivity).
  split; [exact Hin|].
  exact (proj1 (proj1 C2_hit_iff_whole_word
                  (one_file_book "ch.md" "a bcc grid") "BCC" Hin)).
Defined.

(** C9.  A term whose last character is no word character passes the test only
    where its occurrence is directly followed by a word character.  For the
    text "A* search" no hit is recorded for the term "A*", and none is in any
    text where no occurrence of "a*" is followed by a word character. *)
Theorem C9_trailing_nonword_needs_word_after :
  (forall term content,
      word_opt (last_char term) = false -> term <> "" ->
      term_hit term content = true ->
      exists pre mid c post,
        content = pre ++ mid ++ String c post /\
        same_ignoring_case mid term /\ is_word_char c = true)
  /\ (forall content,
        (forall pre mid c post,
            content = pre ++ mid ++ String c post ->
            same_ignoring_case mid "A*" -> is_word_char c = false) ->
        term_hit "A*" content = false)
  /\ In "A*" EXPLICIT_TERMS
  /\ term_hit "A*" "A* search" = false
  /\ dict_get (scan_files (one_file_book "ch.md" "A* search")) "A*" = [].
Proof.
  assert (H1 : forall term content,
      word_opt (last_char term) = false -> term <> "" ->
      term_hit term content = true ->
      exists pre mid c post,
        content = pre ++ mid ++ String c post /\
        same_ignoring_case mid term /\ is_word_char c = true).
  { intros term content Hlast Hne Hh.
    apply term_hit_iff in Hh as (pre & mid & post & -> & Hl & _ & Hb).
    destruct term as [|t term]; [congruence|].
    destruct (lower_nonempty _ _ _ Hl) as (x & mid' & ->).
    unfold last_char in Hb. rewrite last_or_app, last_or_nonempty in Hb.
    apply at_boundary_iff in Hb. unfold at_boundary in Hb.
    unfold last_char in *.
    rewrite (last_or_lower _ _ Hl None None eq_refl), Hlast in Hb.
    destruct post as [|c post]; [discriminate|].
    exists pre, (String x mid'), c, post. auto. }
  split; [exact H1|]. split; [|split; [|split]].
  - intros content Hno. destruct (term_hit "A*" content) eqn:Hh; [|reflexivity].
    apply H1 in Hh as (pre & mid & c & post & Hc & Hl & Hw);
      [|reflexivity|discriminate].
    rewrite (Hno _ _ _ _ Hc Hl) in Hw. discriminate.
  - apply mem_In. vm_compute. reflexivity.
  - vm_compute. reflexivity.
  - vm_compute. reflexivity.
Qed.

Lemma C9_trailing_nonword_needs_word_after_witness :
  word_opt (last_char "A*") = false /\ "A*" <> "" /\
  term_hit "A*" "use A*x" = true /\
  exists pre mid c post,
    "use A*x" = pre ++ mid ++ String c post /\
    same_ignoring_case mid "A*" /\ is_word_char c = true.
Proof.
  assert (H1 : word_opt (last_char "A*") = false) by reflexivity.
  assert (H2 : "A*" <> "") by discriminate.
  assert (H3 : term_hit "A*" "use A*x" = true) by (vm_compute; reflexivity).
  split; [exact H1|]. split; [exact H2|]. split; [exact H3|].
  exact (proj1 C9_trailing_nonword_needs_word_after "A*" "use A*x" H1 H2 H3).
Defined.

End Matching.

(** ** Chapter titles *)

Module Titles.
Import BookIndex.

Lemma rstrip_keep (p : ascii -> bool) (s : string) (z : ascii) :
  last_char s = Some z -> p z = false -> rstrip_by p s = s.
Proof.
  induction s as [|c r IH]; intros Hl Hz; [discriminate|].
  simpl. destruct r as [|d r'].
  - unfold last_char in Hl. simpl in Hl. injection Hl as ->.
    simpl. now rewrite Hz.
  - rewrite IH; [reflexivity | exact Hl | exact Hz].
Qed.

Lemma rstrip_drop_last (p : ascii -> bool) (s : string) (c : ascii) :
  p c = true -> rstrip_by p (s ++ String c "") = rstrip_by p s.
Proof.
  intros Hc. induction s as [|x s IH]; simpl.
  - now rewrite Hc.
  - now rewrite IH.
Qed.

Lemma last_char_snoc (s : string) (c : ascii) : last_char (s ++ String c "") = Some c.
Proof. unfold last_char. now rewrite ReFacts.last_or_app. Qed.

Lemma lstrip_keep (p : ascii -> bool) (s : string) (a : ascii) :
  Re.head s = Some a -> p a = false -> lstrip_by p s = s.
Proof.
  destruct s as [|c r]; intros Hh Ha; [discriminate|].
  injection Hh as ->. simpl. now rewrite Ha.
Qed.

Lemma head_app (s t : string) (a : ascii) : Re.head s = Some a -> Re.head (s ++ t) = Some a.
Proof. destruct s; [discriminate | trivial]. Qed.

Lemma not_hash_space (a : ascii) :
  is_space a = false -> a <> "#"%char -> has_char a "# " = false.
Proof.
  intros Hs Hh. simpl. rewrite orb_false_r.
  destruct (Ascii.eqb_spec a "#"); [contradiction|].
  destruct (Ascii.eqb_spec a " "); [subst; discriminate | reflexivity].
Qed.

(** Both strips leave a plain title alone. *)
Lemma strip_plain (t : string) :
  plain_title t -> strip t = t /\ strip_chars "# " t = t.
Proof.
  intros [Hh Hl]. unfold edge_ok in *.
  destruct (Re.head t) as [a|] eqn:Ea; [|contradiction].
  destruct (last_char t) as [z|] eqn:Ez; [|contradiction].
  destruct Hh as [Has Hah], Hl as [Hzs Hzh].
  unfold strip, strip_chars. split.
  - rewrite (lstrip_keep _ _ _ Ea Has). now apply (rstrip_keep _ _ z).
  - rewrite (lstrip_keep _ _ _ Ea (not_hash_space _ Has Hah)).
    apply (rstrip_keep _ _ z Ez). now apply not_hash_space.
Qed.

Lemma title_of_plain_heading (t : string) (terminated : bool) :
  plain_title t ->
  let line := "# " ++ t ++ (if terminated then nl else "") in
  strip (strip_chars "# " line) = t /\ heading_text line = t.
Proof.
  intros Hp line. destruct (strip_plain t Hp) as [Hs Hc].
  destruct Hp as [Hh Hl]. unfold edge_ok in *.
  destruct (Re.head t) as [a|] eqn:Ea; [|contradiction].
  destruct (last_char t) as [z|] eqn:Ez; [|contradiction].
  destruct Hh as [Has Hah], Hl as [Hzs Hzh].
  assert (Hw : strip (t ++ (if terminated then nl else "")) = t).
  { destruct terminated.
    - unfold strip. rewrite (lstrip_keep _ _ a (head_app _ _ _ Ea) Has).
      unfold nl. rewrite rstrip_drop_last by reflexivity.
      now apply (rstrip_keep _ _ z).
    - now rewrite append_empty_r. }
  split; [|exact Hw].
  assert (Hk : strip_chars "# " line = t ++ (if terminated then nl else "")).
  { unfold line, strip_chars. cbn [append lstrip_by has_char Ascii.eqb Bool.eqb orb].
    rewrite (lstrip_keep _ _ a (head_app _ _ _ Ea) (not_hash_space _ Has Hah)).
    destruct terminated.
    - apply (rstrip_keep _ _ newline); [apply last_char_snoc | reflexivity].
    - rewrite append_empty_r. apply (rstrip_keep _ _ z Ez).
      now apply not_hash_space. }
  now rewrite Hk.
Qed.

Lemma find_first {A} (p : A -> bool) (before : list A) (x : A) (after : list A) :
  Forall (fun y => p y = false) before -> p x = true ->
  find p (before ++ x :: after) = Some x.
Proof.
  induction 1 as [|y before Hy _ IH]; intros Hx; simpl.
  - now rewrite Hx.
  - rewrite Hy. now apply IH.
Qed.

Lemma find_none {A} (p : A -> bool) (l : list A) :
  Forall (fun y => p y = false) l -> find p l = None.
Proof. induction 1 as [|y l Hy _ IH]; simpl; [reflexivity | now rewrite Hy]. Qed.

Lemma get_title_first_heading (path content : string)
    (before : list string) (line : string) (after : list string) :
  iter_lines content = (before ++ line :: after)%list ->
  Forall (fun l => is_heading l = false) before ->
  is_heading line = true ->
  get_title path content = strip (strip_chars "# " line).
Proof.
  intros Hlines Hb Hl. unfold get_title.
  change (fun line0 => startswith line0 "# ") with is_heading.
  now rewrite Hlines, find_first.
Qed.

(** C4.  [get_title] takes the title from the first line that starts with
    "# " and falls back to the base filename, as claimed, but it takes off
    more than the heading marker: [line.strip("# ")] removes every hash and
    blank at both ends of the line.  The heading line "# #include guards"
    gives the title "include guards" where the heading without its marker is
    "#include guards", and a last line "# C#" without a line feed gives "C".
    For a heading whose text neither starts nor ends with a hash or white
    space the title is the heading without its marker. *)
Theorem C4_title_over_stripped :
  get_title "book/ch2.md" ("# #include guards" ++ nl ++ "Text." ++ nl)
    = "include guards"
  /\ claimed_title "book/ch2.md" ("# #include guards" ++ nl ++ "Text." ++ nl)
    = "#include guards"
  /\ get_title "book/ch3.md" ("Text." ++ nl ++ "# C#") = "C"
  /\ claimed_title "book/ch3.md" ("Text." ++ nl ++ "# C#") = "C#"
  /\ (forall path content before line after t (terminated : bool),
        iter_lines content = (before ++ line :: after)%list ->
        Forall (fun l => is_heading l = false) before ->
        line = "# " ++ t ++ (if terminated then nl else "") ->
        plain_title t ->
        get_title path content = t /\ claimed_title path content = t)
  /\ (forall path content,
        Forall (fun l => is_heading l = false) (iter_lines content) ->
        get_title path content = basename path
        /\ claimed_title path content = basename path)
  /\ (forall root file,
        has_char "/" file = false -> root <> "" ->
        basename (path_join root file) = file).
Proof.
  split; [vm_compute; reflexivity|]. split; [vm_compute; reflexivity|].
  split; [vm_compute; reflexivity|]. split; [vm_compute; reflexivity|].
  split; [|split].
  - intros path content before line after t terminated Hlines Hb -> Hp.
    assert (Hl : is_heading ("# " ++ t ++ (if terminated then nl else "")) = true)
      by (unfold is_heading, startswith; cbn [append String.prefix];
          now destruct (t ++ (if terminated then nl else ""))).
    assert (Hf : find is_heading (iter_lines content)
                 = Some ("# " ++ t ++ (if terminated then nl else "")))
      by (rewrite Hlines; now apply find_first).
    destruct (title_of_plain_heading t terminated Hp) as [H1 H2].
    split.
    + now rewrite (get_title_first_heading path content before _ after Hlines Hb Hl).
    + unfold claimed_title. now rewrite Hf.
  - intros path content Hall. unfold get_title, claimed_title.
    change (fun line => startswith line "# ") with is_heading.
    now rewrite find_none.
  - intros root file Hns Hroot.
    assert (Hb : forall a, has_char "/" file = false ->
                           basename (a ++ String "/" file) = file).
    { intros a Hf. induction a as [|c a IH]; simpl.
      - rewrite Hf. reflexivity.
      - assert (Hs : has_char "/" (a ++ String "/" file) = true).
        { clear. induction a as [|x a IHa]; simpl; [reflexivity|].
          rewrite IHa. apply orb_true_r. }
        rewrite Hs. exact IH. }
    unfold path_join.
    assert (Hsw : startswith file "/" = false).
    { destruct file as [|c f]; [reflexivity|].
      unfold startswith. cbn [String.prefix].
      destruct (ascii_dec "/" c) as [<-|Hne]; [|reflexivity].
      simpl in Hns. discriminate. }
    rewrite Hsw.
    destruct (String.eqb_spec root ""); [contradiction|]. simpl.
    destruct (endswith root "/") eqn:He.
    + destruct (endswith_inv _ _ He) as [a ->].
      rewrite append_assoc. simpl. now apply Hb.
    + now apply Hb.
Qed.

Lemma C4_title_over_stripped_witness :
  get_title "book/ch1.md" ("Preface" ++ nl ++ "# Chapter One" ++ nl ++ "# Two" ++ nl)
  = "Chapter One".
Proof.
  refine (proj1 (proj1 (proj2 (proj2 (proj2 (proj2 C4_title_over_stripped))))
            "book/ch1.md"
            ("Preface" ++ nl ++ "# Chapter One" ++ nl ++ "# Two" ++ nl)
            ["Preface" ++ nl] ("# Chapter One" ++ nl) ["# Two" ++ nl]
            "Chapter One" true _ _ _ _)).
  - vm_compute. reflexivity.
  - repeat constructor.
  - reflexivity.
  - split; split; [reflexivity | discriminate | reflexivity | discriminate].
Defined.

End Titles.

(** ** The order of [sorted] *)

Module Order.
Import BookIndex.

Lemma compare_refl (a : string) : (a ?= a) = Eq.
Proof.
  pose proof (String.compare_antisym a a) as H.
  destruct (a ?= a); simpl in H; congruence.
Qed.

Lemma compare_lt_trans (a : string) :
  forall b c, (a ?= b) = Lt -> (b ?= c) = Lt -> (a ?= c) = Lt.
Proof.
  induction a as [|x a IH]; intros [|y b] [|z c]; simpl; try discriminate; auto.
  unfold Ascii.compare.
  destruct (N.compare_spec (N_of_ascii x) (N_of_ascii y)) as [Exy|Lxy|Gxy];
    destruct (N.compare_spec (N_of_ascii y) (N_of_ascii z)) as [Eyz|Lyz|Gyz];
    try discriminate; intros Hab Hbc.
  - rewrite Exy, Eyz, N.compare_refl. now apply (IH b).
  - rewrite Exy. now apply N.compare_lt_iff in Lyz as ->.
  - rewrite <- Eyz. now apply N.compare_lt_iff in Lxy as ->.
  - assert (H : (N_of_ascii x < N_of_ascii z)%N) by lia.
    now apply N.compare_lt_iff in H as ->.
Qed.

Lemma leb_cases (a b : string) : (a <=? b) = true <-> (a <? b) = true \/ a = b.
Proof.
  unfold String.leb, String.ltb. split.
  - destruct (a ?= b) eqn:E; try discriminate; intros _.
    + right. now apply String.compare_eq_iff.
    + now left.
  - intros [H | ->]; [|now rewrite compare_refl].
    destruct (a ?= b); congruence.
Qed.

Lemma ltb_lt (a b : string) : (a <? b) = true <-> (a ?= b) = Lt.
Proof. unfold String.ltb. destruct (a ?= b); split; congruence. Qed.

Lemma ltb_trans (a b c : string) :
  (a <? b) = true -> (b <? c) = true -> (a <? c) = true.
Proof. rewrite !ltb_lt. apply compare_lt_trans. Qed.

Lemma leb_ltb_trans (a b c : string) :
  (a <=? b) = true -> (b <? c) = true -> (a <? c) = true.
Proof.
  rewrite leb_cases. intros [H | ->] Hbc; [|assumption].
  now apply (ltb_trans a b c).
Qed.

Lemma leb_trans (a b c : string) :
  (a <=? b) = true -> (b <=? c) = true -> (a <=? c) = true.
Proof.
  intros Hab Hbc. apply leb_cases in Hbc as [Hbc | <-]; [|assumption].
  apply leb_cases. left. now apply (leb_ltb_trans a b c).
Qed.

Lemma leb_neq_ltb (a b : string) :
  (a <=? b) = true -> a <> b -> (a <? b) = true.
Proof. rewrite leb_cases. intros [H | H] Hne; [assumption | contradiction]. Qed.

(** The order of two strings starts with the order of their first characters. *)
Lemma leb_first (x y : ascii) (a b : string) :
  (String x a <=? String y b) = true ->
  (String x "" <=? String y "") = true.
Proof.
  unfold String.leb. simpl.
  destruct (Ascii.compare x y); simpl; congruence.
Qed.

Lemma le_trans a b c : le a b -> le b c -> le a c.
Proof. unfold le, key_le. apply leb_trans. Qed.

Lemma le_lt_trans a b c : le a b -> lt b c -> lt a c.
Proof. unfold le, lt, key_le, key_lt. apply leb_ltb_trans. Qed.

Lemma le_total a b : le a b \/ le b a.
Proof. unfold le, key_le. apply String.leb_total. Qed.

Lemma insert_sorted_perm (x : string) (l : list string) :
  Permutation (insert_sorted x l) (x :: l).
Proof.
  induction l as [|y l IH]; simpl; [apply Permutation_refl|].
  destruct (key_le x y); [apply Permutation_refl|].
  eapply perm_trans; [apply perm_skip, IH | apply perm_swap].
Qed.

Lemma sorted_by_lower_perm (l : list string) : Permutation (sorted_by_lower l) l.
Proof.
  induction l as [|x l IH]; simpl; [constructor|].
  eapply perm_trans; [apply insert_sorted_perm | now apply perm_skip].
Qed.

Lemma insert_sorted_sorted (x : string) (l : list string) :
  StronglySorted le l -> StronglySorted le (insert_sorted x l).
Proof.
  induction 1 as [|y l Hs IH Hall]; simpl; [repeat constructor|].
  destruct (key_le x y) eqn:E.
  - constructor; [now constructor|]. constructor; [exact E|].
    eapply Forall_impl; [|exact Hall]. intros z. now apply le_trans.
  - constructor; [exact IH|].
    eapply Permutation_Forall; [symmetry; apply insert_sorted_perm|].
    constructor; [|exact Hall].
    destruct (le_total x y) as [H|H]; [unfold le in H; congruence | exact H].
Qed.

Lemma sorted_by_lower_sorted (l : list string) :
  StronglySorted le (sorted_by_lower l).
Proof.
  induction l as [|x l IH]; simpl; [constructor | now apply insert_sorted_sorted].
Qed.

(** With keys that stay distinct in lower case the order is strict. *)
Lemma sorted_strict (l : list string) :
  StronglySorted le l -> NoDup (map lower l) -> StronglySorted lt l.
Proof.
  induction 1 as [|x l Hs IH Hall]; intros Hnd; [constructor|].
  simpl in Hnd. inversion Hnd as [|? ? Hnot Hnd']; subst.
  constructor; [now apply IH|].
  rewrite Forall_forall in *. intros y Hy.
  apply leb_neq_ltb; [now apply Hall|].
  intros E. apply Hnot. rewrite E. now apply in_map.
Qed.

Lemma lower_keys_distinct : NoDup (map lower EXPLICIT_TERMS).
Proof.
  apply (NoDup_count_occ string_dec). intros x.
  assert (H : forallb (fun t => (count_occ string_dec (map lower EXPLICIT_TERMS) t <=? 1)%nat)
                      (map lower EXPLICIT_TERMS) = true) by (vm_compute; reflexivity).
  destruct (in_dec string_dec x (map lower EXPLICIT_TERMS)) as [Hin|Hnot].
  - rewrite forallb_forall in H. apply Nat.leb_le. now apply H.
  - apply (count_occ_not_In string_dec) in Hnot. lia.
Qed.

Lemma NoDup_map_incl {A B} (f : A -> B) (l big : list A) :
  NoDup l -> incl l big -> NoDup (map f big) -> NoDup (map f l).
Proof.
  intros Hnd Hin Hbig.
  assert (Hinj : forall a b, In a big -> In b big -> f a = f b -> a = b).
  { clear - Hbig. induction big as [|x big IH]; intros a b Ha Hb E; [destruct Ha|].
    simpl in Hbig. inversion Hbig as [|? ? Hnot Hnd]; subst.
    destruct Ha as [<-|Ha], Hb as [<-|Hb]; auto.
    - exfalso. apply Hnot. rewrite E. now apply in_map.
    - exfalso. apply Hnot. rewrite <- E. now apply in_map. }
  induction Hnd as [|x l Hnot Hnd IH]; simpl; constructor.
  - intros Hx. apply in_map_iff in Hx as (y & E & Hy).
    assert (y = x).
    { apply Hinj; [apply Hin; now right | apply Hin; now left | exact E]. }
    subst. contradiction.
  - apply IH. intros y Hy. apply Hin. now right.
Qed.

(** The sorted keys of a scanned index are in strict case-insensitive order. *)
Lemma sorted_keys_strict (idx : index) :
  keys_ok idx -> StronglySorted lt (sorted_by_lower (keys idx)).
Proof.
  intros [Hnd Hin]. apply sorted_strict; [apply sorted_by_lower_sorted|].
  apply (NoDup_map_incl lower _ EXPLICIT_TERMS).
  - eapply Permutation_NoDup; [symmetry; apply sorted_by_lower_perm | exact Hnd].
  - intros x Hx. apply Hin.
    eapply Permutation_in; [apply sorted_by_lower_perm | exact Hx].
  - apply lower_keys_distinct.
Qed.

End Order.

(** ** Deduplication of the links of a term *)

Module Dedup.
Import BookIndex.

Lemma dict_set_keys (d : list link) (k v : string) :
  map fst (dict_set d k v)
  = if mem k (map fst d) then map fst d else (map fst d ++ [k])%list.
Proof.
  induction d as [|[k0 v0] d IH]; simpl; [reflexivity|].
  rewrite (String.eqb_sym k k0).
  destruct (String.eqb_spec k0 k) as [->|Hne]; simpl; [reflexivity|].
  rewrite IH. fold (mem k (map fst d)). destruct (mem k (map fst d)); reflexivity.
Qed.

Lemma dict_set_In (d : list link) (k v t p : string) :
  NoDup (map fst d) ->
  (In (t, p) (dict_set d k v) <-> (t = k /\ p = v) \/ (t <> k /\ In (t, p) d)).
Proof.
  induction d as [|[k0 v0] d IH]; intros Hnd; simpl.
  - split.
    + intros [E|[]]. injection E as <- <-. now left.
    + intros [[-> ->]|[_ []]]. now left.
  - simpl in Hnd. inversion Hnd as [|? ? Hnot Hnd']; subst.
    destruct (String.eqb_spec k0 k) as [->|Hne]; simpl.
    + split.
      * intros [E|Hin]; [injection E as <- <-; now left|].
        right. split; [|now right].
        intros ->. apply Hnot. now apply (in_map fst) in Hin.
      * intros [[-> ->]|[Hne [E|Hin]]]; [now left | | now right].
        injection E as <- <-. contradiction.
    + rewrite (IH Hnd'). split.
      * intros [E|[[-> ->]|[Htk Hin]]]; auto.
        injection E as <- <-. right. split; [assumption | now left].
      * intros [[-> ->]|[Htk [E|Hin]]]; auto.
Qed.

Lemma dict_set_NoDup (d : list link) (k v : string) :
  NoDup (map fst d) -> NoDup (map fst (dict_set d k v)).
Proof.
  intros Hnd. rewrite dict_set_keys.
  destruct (mem k (map fst d)) eqn:Hm; [assumption|].
  apply NoDup_app; [assumption | repeat constructor; simpl; tauto|].
  intros x Hx [<-|[]]. apply mem_In in Hx. congruence.
Qed.

Lemma fold_set_NoDup (links : list link) :
  forall d, NoDup (map fst d) -> NoDup (map fst (fold_left set_link links d)).
Proof.
  induction links as [|[t p] links IH]; intros d Hnd; simpl; [assumption|].
  apply IH. now apply dict_set_NoDup.
Qed.

Lemma fold_set_In (links : list link) :
  forall d t p,
    NoDup (map fst d) ->
    (In (t, p) (fold_left set_link links d)
     <-> last_path_of links t p \/ (In (t, p) d /\ ~ In t (map fst links))).
Proof.
  induction links as [|[t0 p0] links IH]; intros d t p Hnd; simpl.
  - split; [intros H; right; auto|]. intros [(b & a & E & _)|[H _]]; [|assumption].
    destruct b; discriminate.
  - change (set_link d (t0, p0)) with (dict_set d t0 p0).
    rewrite (IH _ _ _ (dict_set_NoDup d t0 p0 Hnd)).
    rewrite (dict_set_In d t0 p0 t p Hnd). split.
    + intros [(b & a & -> & Hlast)|[[[-> ->]|[Hne Hin]] Hnot]].
      * left. exists ((t0, p0) :: b), a. auto.
      * left. exists [], links. auto.
      * right. split; [assumption|]. intros [E|H]; [congruence | contradiction].
    + intros [(b & a & E & Hlast)|[Hin Hnot]].
      * destruct b as [|x b]; simpl in E.
        -- injection E as <- <- <-. right. split; [now left | assumption].
        -- injection E as <- ->. left. exists b, a. auto.
      * right. split; [|tauto]. right. split; [|assumption].
        intros ->. apply Hnot. now left.
Qed.

Lemma unique_links_fold (links : list link) :
  unique_links links = fold_left set_link links [].
Proof. reflexivity. Qed.

Lemma unique_links_NoDup (links : list link) : NoDup (map fst (unique_links links)).
Proof. rewrite unique_links_fold. apply fold_set_NoDup. constructor. Qed.

Lemma unique_links_In (links : list link) (t p : string) :
  In (t, p) (unique_links links) <-> last_path_of links t p.
Proof.
  rewrite unique_links_fold, fold_set_In by constructor.
  split; [intros [H|[[] _]]; exact H | now left].
Qed.

Lemma last_path_exists (links : list link) (t : string) :
  In t (map fst links) -> exists p, last_path_of links t p.
Proof.
  induction links as [|[t0 p0] links IH]; intros Hin; [destruct Hin|].
  destruct (in_dec string_dec t (map fst links)) as [Hl|Hnl].
  - destruct (IH Hl) as (p & b & a & -> & Hlast).
    exists p, ((t0, p0) :: b), a. auto.
  - destruct Hin as [E|Hin]; [|contradiction]. simpl in E. subst t0.
    exists p0, [], links. auto.
Qed.

Lemma last_path_unique (links : list link) (t p q : string) :
  last_path_of links t p -> last_path_of links t q -> p = q.
Proof.
  intros Hp Hq. apply unique_links_In in Hp, Hq.
  pose proof (unique_links_NoDup links) as Hnd.
  induction (unique_links links) as [|[t1 p1] l IH]; [destruct Hp|].
  simpl in Hnd. inversion Hnd as [|? ? Hnot Hnd']; subst.
  destruct Hp as [Ep|Hp], Hq as [Eq|Hq].
  - congruence.
  - injection Ep as -> ->. exfalso. apply Hnot. now apply (in_map fst) in Hq.
  - injection Eq as -> ->. exfalso. apply Hnot. now apply (in_map fst) in Hp.
  - now apply IH.
Qed.

Lemma last_path_In (links : list link) (t p : string) :
  last_path_of links t p -> In (t, p) links.
Proof. intros (b & a & -> & _). apply in_elt. Qed.

End Dedup.

(** ** The generated page *)

Module Page.
Import BookIndex ScanFacts Order Dedup.

Lemma index_loop_document (idx : index) (terms : list string) :
  Forall (fun t => t <> "") terms ->
  forall current_letter md_content,
    index_loop idx terms current_letter md_content
    = Some (md_content ++ render (document_loop idx terms current_letter)).
Proof.
  induction 1 as [|term rest Hne _ IH]; intros cur md.
  - cbn [index_loop document_loop render]. now rewrite append_empty_r.
  - destruct term as [|c s]; [congruence|].
    cbn [index_loop document_loop letter_of]. cbv zeta. rewrite IH.
    destruct (negb (String (upper_char c) "" =? cur)); cbn [render render_item];
      now rewrite !append_assoc.
Qed.

Lemma vocabulary_nonempty (t : string) : In t EXPLICIT_TERMS -> t <> "".
Proof.
  intros Hin ->. apply mem_In in Hin. vm_compute in Hin. discriminate.
Qed.

Lemma sorted_keys_in (idx : index) (t : string) :
  In t (sorted_by_lower (keys idx)) <-> In t (keys idx).
Proof.
  split; apply Permutation_in;
    [apply sorted_by_lower_perm | symmetry; apply sorted_by_lower_perm].
Qed.

(** The page of a scanned index is the title followed by its blocks. *)
Lemma generate_index_md_document (idx : index) :
  keys_ok idx ->
  generate_index_md idx = Some (page_title ++ render (document idx)).
Proof.
  intros [_ Hin]. unfold generate_index_md, document.
  rewrite index_loop_document; [reflexivity|].
  apply Forall_forall. intros t Ht.
  apply vocabulary_nonempty, Hin, sorted_keys_in, Ht.
Qed.

Lemma render_app (d1 d2 : list item) : render (d1 ++ d2) = render d1 ++ render d2.
Proof.
  induction d1 as [|i d1 IH]; [reflexivity|].
  cbn [app render]. now rewrite IH, append_assoc.
Qed.

Lemma terms_of_loop (idx : index) (terms : list string) :
  forall cur, terms_of (document_loop idx terms cur) = terms.
Proof.
  induction terms as [|t r IH]; intros cur; simpl; [reflexivity|].
  destruct (negb (letter_of t =? cur)); simpl; now rewrite IH.
Qed.

Lemma term_line_in_loop (idx : index) (terms : list string) :
  forall cur t links,
    In (TermLine t links) (document_loop idx terms cur) ->
    In t terms /\ links = unique_links (dict_get idx t).
Proof.
  induction terms as [|x r IH]; intros cur t links Hin; simpl in Hin;
    [destruct Hin|].
  destruct (negb (letter_of x =? cur)); simpl in Hin.
  - destruct Hin as [E|[E|Hin]]; [discriminate | |].
    + injection E as <- <-. split; [now left | reflexivity].
    + destruct (IH _ _ _ Hin). split; [now right | assumption].
  - destruct Hin as [E|Hin].
    + injection E as <- <-. split; [now left | reflexivity].
    + destruct (IH _ _ _ Hin). split; [now right | assumption].
Qed.

(** Every term line stands in the section of its letter, or continues the
    section that was open when the loop started. *)
Lemma loop_in_section (idx : index) (terms : list string) :
  forall cur t,
    In t terms ->
    in_section (document_loop idx terms cur) (letter_of t) t
               (unique_links (dict_get idx t))
    \/ (letter_of t = cur /\
        exists between after,
          document_loop idx terms cur
          = (between ++ TermLine t (unique_links (dict_get idx t)) :: after)%list
          /\ Forall is_term_line between).
Proof.
  induction terms as [|x r IH]; intros cur t Hin; [destruct Hin|].
  cbn [document_loop].
  destruct Hin as [->|Hin].
  - destruct (String.eqb_spec (letter_of t) cur) as [E|E]; cbn [negb].
    + right. split; [exact E|]. exists [], (document_loop idx r (letter_of t)).
      split; [reflexivity | constructor].
    + left. exists [], [], (document_loop idx r (letter_of t)).
      split; [reflexivity | constructor].
  - destruct (IH (letter_of x) t Hin)
      as [(b & m & a & E & Hm) | (El & m & a & E & Hm)]; rewrite E.
    + left. destruct (negb (letter_of x =? cur)).
      * exists (Header (letter_of x) :: TermLine x (unique_links (dict_get idx x)) :: b), m, a.
        split; [reflexivity | assumption].
      * exists (TermLine x (unique_links (dict_get idx x)) :: b), m, a.
        split; [reflexivity | assumption].
    + destruct (String.eqb_spec (letter_of x) cur) as [Ex|Ex]; cbn [negb].
      * right. split; [congruence|].
        exists (TermLine x (unique_links (dict_get idx x)) :: m), a.
        split; [reflexivity | constructor; [exact I | assumption]].
      * left. rewrite El.
        exists [], (TermLine x (unique_links (dict_get idx x)) :: m), a.
        split; [reflexivity | constructor; [exact I | assumption]].
Qed.

Lemma letter_of_nonempty (t : string) : t <> "" -> letter_of t <> "".
Proof. destruct t; [congruence | discriminate]. Qed.

Lemma document_in_section (idx : index) (t : string) :
  In t (keys idx) -> t <> "" ->
  in_section (document idx) (letter_of t) t (unique_links (dict_get idx t)).
Proof.
  intros Hin Hne. apply sorted_keys_in in Hin.
  destruct (loop_in_section idx _ "" t Hin) as [H | [E _]]; [exact H|].
  now apply letter_of_nonempty in Hne.
Qed.

(** The text of blocks ends with a line feed. *)
Lemma render_ends_line (d : list item) :
  d <> [] -> exists start, render d = start ++ nl.
Proof.
  induction d as [|i d IH]; [congruence|]. intros _.
  destruct d as [|j d].
  - cbn [render]. rewrite append_empty_r. destruct i as [letter | term links].
    + exists (nl ++ "## " ++ letter ++ nl). cbn [render_item].
      unfold section_header. now rewrite !append_assoc.
    + exists ("- **" ++ term ++ "**: " ++ join ", " (map render_link links)).
      cbn [render_item]. unfold term_line. now rewrite !append_assoc.
  - destruct IH as [start E]; [discriminate|].
    exists (render_item i ++ start).
    change (render (i :: j :: d)) with (render_item i ++ render (j :: d)).
    now rewrite E, append_assoc.
Qed.

(** The line of a key is a line of the generated page. *)
Lemma page_has_line (idx : index) (t : string) :
  keys_ok idx -> In t (keys idx) ->
  exists before after,
    generate_index_md idx
    = Some (before ++ term_line t (unique_links (dict_get idx t)) ++ after)
    /\ exists start, before = start ++ nl.
Proof.
  intros Hok Hin.
  assert (Hne : t <> "") by apply (vocabulary_nonempty _ (proj2 Hok _ Hin)).
  destruct (document_in_section idx t Hin Hne) as (b & m & a & E & _).
  rewrite (generate_index_md_document _ Hok), E.
  exists (page_title ++ render (b ++ Header (letter_of t) :: m)), (render a).
  split.
  2:{ destruct (render_ends_line (b ++ Header (letter_of t) :: m)) as [start Es].
      - now destruct b.
      - exists (page_title ++ start). now rewrite Es, append_assoc. }
  f_equal.
  change (b ++ Header (letter_of t) :: m ++ TermLine t (unique_links (dict_get idx t)) :: a)%list
    with (b ++ (Header (letter_of t) :: m)
            ++ TermLine t (unique_links (dict_get idx t)) :: a)%list.
  rewrite app_assoc, render_app. cbn [render render_item].
  now rewrite append_assoc.
Qed.

(** A header is directly followed by a term line of its letter. *)
Lemma header_then_line (idx : index) (terms : list string) :
  forall cur before letter after,
    document_loop idx terms cur = (before ++ Header letter :: after)%list ->
    exists t links rest,
      after = TermLine t links :: rest /\ letter_of t = letter.
Proof.
  induction terms as [|x r IH]; intros cur before letter after E; simpl in E.
  - destruct before; discriminate.
  - destruct (negb (letter_of x =? cur)).
    + destruct before as [|i before]; simpl in E.
      * injection E as <- <-. eauto.
      * injection E as <- E. destruct before as [|j before]; simpl in E;
          [discriminate|]. injection E as <- E. now apply (IH _ _ _ _ E).
    + destruct before as [|i before]; simpl in E; [discriminate|].
      injection E as <- E. now apply (IH _ _ _ _ E).
Qed.

Lemma lower_upper_char (c : ascii) : lower_char (upper_char c) = lower_char c.
Proof. each_char c; vm_compute; reflexivity. Qed.

Lemma lower_letter_of (c : ascii) (s : string) :
  lower (letter_of (String c s)) = String (lower_char c) "".
Proof. cbn [letter_of]. rewrite lower_cons, lower_upper_char. reflexivity. Qed.

Lemma letter_le (a b : string) :
  a <> "" -> b <> "" -> le a b -> le (letter_of a) (letter_of b).
Proof.
  destruct a as [|x a]; [congruence|]. destruct b as [|y b]; [congruence|].
  intros _ _. unfold le, key_le. rewrite !lower_letter_of, !lower_cons.
  apply leb_first.
Qed.

Lemma letter_eq_lower (a b : string) :
  a <> "" -> b <> "" -> lower (letter_of a) = lower (letter_of b) ->
  letter_of a = letter_of b.
Proof.
  destruct a as [|x a]; [congruence|]. destruct b as [|y b]; [congruence|].
  intros _ _. rewrite !lower_letter_of. intros E. injection E as E.
  cbn [letter_of]. f_equal. now apply upper_lower_char.
Qed.

(** Past a term [t], every header the loop emits is of a later letter. *)
Lemma letters_after (idx : index) (terms : list string) :
  StronglySorted le terms -> Forall (fun t => t <> "") terms ->
  forall t, t <> "" -> Forall (le t) terms ->
    Forall (lt (letter_of t)) (letters_of (document_loop idx terms (letter_of t))).
Proof.
  induction 1 as [|x r Hs IH Hall]; intros Hne t Ht Hle; simpl; [constructor|].
  inversion Hne as [|? ? Hx Hr]; subst. inversion Hle as [|? ? Htx Htr]; subst.
  assert (Hrest : Forall (lt (letter_of x)) (letters_of (document_loop idx r (letter_of x))))
    by (apply IH; assumption).
  pose proof (letter_le t x Ht Hx Htx) as Hl.
  destruct (String.eqb_spec (letter_of x) (letter_of t)) as [E|E]; cbn [negb].
  - cbn [letters_of]. now rewrite <- E.
  - cbn [letters_of]. constructor.
    + apply leb_neq_ltb; [exact Hl|]. intros El. apply E. symmetry.
      now apply letter_eq_lower.
    + eapply Forall_impl; [|exact Hrest]. intros l. now apply le_lt_trans.
Qed.

Lemma letters_sorted (idx : index) (terms : list string) :
  StronglySorted le terms -> Forall (fun t => t <> "") terms ->
  forall cur, StronglySorted lt (letters_of (document_loop idx terms cur)).
Proof.
  induction 1 as [|x r Hs IH Hall]; intros Hne cur; simpl; [constructor|].
  inversion Hne as [|? ? Hx Hr]; subst.
  destruct (negb (letter_of x =? cur)); cbn [letters_of]; [|now apply IH].
  constructor; [now apply IH|]. now apply letters_after.
Qed.

Lemma lt_irrefl (a : string) : ~ lt a a.
Proof.
  unfold lt, key_lt, String.ltb. now rewrite compare_refl.
Qed.

(** No term line before a header is of the header's letter. *)
Lemma header_is_first (idx : index) (terms : list string) :
  StronglySorted le terms -> Forall (fun t => t <> "") terms ->
  forall cur before letter after,
    document_loop idx terms cur = (before ++ Header letter :: after)%list ->
    Forall (fun t => letter_of t <> letter) (terms_of before).
Proof.
  induction 1 as [|x r Hs IH Hall]; intros Hne cur before letter after E.
  - destruct before; discriminate.
  - inversion Hne as [|? ? Hx Hr]; subst.
    assert (Hlater : forall before' ,
               document_loop idx r (letter_of x)
               = (before' ++ Header letter :: after)%list ->
               Forall (fun t => letter_of t <> letter) (x :: terms_of before')).
    { intros before' E'. constructor; [|now apply (IH Hr _ _ _ _ E')].
      intros El. apply (lt_irrefl letter). rewrite <- El at 1.
      pose proof (letters_after idx r Hs Hr x Hx Hall) as Hl.
      rewrite Forall_forall in Hl. apply Hl.
      rewrite E'. clear. induction before' as [|[l|t ls] b IHb]; simpl; auto. }
    cbn [document_loop] in E. cbv zeta in E.
    destruct (negb (letter_of x =? cur)).
    + destruct before as [|i before]; [constructor|].
      cbn [app] in E. injection E as <- E.
      destruct before as [|j before]; [discriminate|].
      cbn [app] in E. injection E as <- E. cbn [terms_of]. now apply Hlater.
    + destruct before as [|i before]; [discriminate|].
      cbn [app] in E. injection E as <- E. cbn [terms_of]. now apply Hlater.
Qed.

End Page.

(** ** The claims about the generated index *)

Module IndexClaims.
Import Re BookIndex HitFacts ScanFacts Order Dedup Page Titles.

(** [main] returns exactly when the index file can be written. *)
Lemma main_writes (book : tree) :
  index_file_writable book = true ->
  exists r, main book = Some r /\
            written r = [(INDEX_FILE, page_title ++ render (document (scan_files book)))].
Proof.
  intros Hw. unfold main.
  rewrite (generate_index_md_document _ (scan_files_keys_ok book)), Hw.
  eexists. split; reflexivity.
Qed.

(** What [main] has written and printed when it returns. *)
Lemma main_returned (book : tree) (r : run) :
  main book = Some r ->
  exists page,
    generate_index_md (scan_files book) = Some page
    /\ index_file_writable book = true
    /\ r = {| printed :=
                [ "Scanning book content in " ++ BOOK_DIR ++ "...";
                  "Found " ++ str_of_nat (List.length (scan_files book)) ++ " terms.";
                  "Index generated at " ++ INDEX_FILE ];
              written := [(INDEX_FILE, page)] |}.
Proof.
  unfold main. destruct (generate_index_md (scan_files book)) as [page|]; [|discriminate].
  destruct (index_file_writable book); [|discriminate].
  intros H. injection H as <-. now exists page.
Qed.

Lemma main_written (book : tree) (r : run) :
  main book = Some r ->
  forall page, generate_index_md (scan_files book) = Some page ->
               written r = [(INDEX_FILE, page)].
Proof.
  intros Hr page Hpage. destruct (main_returned book r Hr) as (page' & E & _ & ->).
  cbn [written]. congruence.
Qed.

Lemma one_file_book_writable (file content : string) :
  is_scanned_name file = true ->
  index_file_writable (one_file_book file content) = true.
Proof.
  intros Hname. unfold index_file_writable, one_file_book, subdir, has_entry, mem.
  cbn [find option_map map fst existsb].
  destruct (String.eqb_spec "back_matter" file) as [<-|_]; [|reflexivity].
  vm_compute in Hname. discriminate.
Qed.

Lemma dict_get_key (idx : index) (k : string) :
  dict_get idx k <> [] -> In k (keys idx).
Proof.
  induction idx as [|[k0 vs] idx IH]; simpl; [congruence|].
  destruct (String.eqb_spec k0 k); [now left | right; now apply IH].
Qed.

Lemma prefix_app (p s : string) : String.prefix p (p ++ s) = true.
Proof.
  induction p as [|c p IH]; simpl; [now destruct s|].
  destruct (ascii_dec c c); [exact IH | congruence].
Qed.

Lemma no_slash_not_absolute (file : string) :
  has_char "/" file = false -> startswith file "/" = false.
Proof.
  destruct file as [|c f]; [reflexivity|]. intros Hns.
  unfold startswith. cbn [String.prefix].
  destruct (ascii_dec "/" c) as [<-|Hne]; [|reflexivity].
  simpl in Hns. discriminate.
Qed.

Lemma link_in_root (file : string) :
  has_char "/" file = false ->
  relpath (path_join BOOK_DIR file) BOOK_DIR = file.
Proof.
  intros Hns. unfold path_join. rewrite (no_slash_not_absolute _ Hns).
  change (if (BOOK_DIR =? "") || endswith BOOK_DIR "/"
          then BOOK_DIR ++ file else BOOK_DIR ++ "/" ++ file)
    with ("book/" ++ file).
  unfold relpath, startswith.
  change (BOOK_DIR ++ "/") with "book/". now rewrite prefix_app.
Qed.

Lemma whole_word_between (pre left mid right post : string) (a b c d : ascii) :
  last_char left = Some a -> Re.head mid = Some b ->
  last_char mid = Some c -> Re.head right = Some d ->
  at_boundary (Some a) (Some b) = true -> at_boundary (Some c) (Some d) = true ->
  contains_whole_word mid (pre ++ (left ++ mid ++ right) ++ post).
Proof.
  intros Ha Hb Hc Hd Hab Hcd.
  exists (pre ++ left), mid, (right ++ post).
  split; [now rewrite !append_assoc|]. split; [reflexivity|].
  unfold last_char in *. split; apply at_boundary_iff.
  - rewrite ReFacts.last_or_app. destruct left as [|x l]; [discriminate|].
    rewrite Matching.last_or_nonempty. unfold last_char. rewrite Ha.
    now rewrite (head_app _ _ _ Hb).
  - rewrite ReFacts.last_or_app.
    destruct mid as [|x m]; [discriminate|].
    rewrite Matching.last_or_nonempty. unfold last_char. rewrite Hc.
    now rewrite (head_app _ _ _ Hd).
Qed.

(** C1.  For a book of one scanned markdown file whose first level-one heading
    line is "# Chapter One" and whose text contains "uses an Octree and BCC
    lattice", the index file that is written has a section B with a line for
    BCC and a section O with a line for Octree, each with the one link
    "[Chapter One](../file)". *)
Theorem C1_chapter_one_indexed
    (file content : string) (before after : list string) (line pre post : string) :
  is_scanned_name file = true ->
  has_char "/" file = false ->
  iter_lines content = (before ++ line :: after)%list ->
  Forall (fun l => is_heading l = false) before ->
  line = "# Chapter One" ++ nl \/ line = "# Chapter One" ->
  content = pre ++ "uses an Octree and BCC lattice" ++ post ->
  let book := one_file_book file content in
  let doc := document (scan_files book) in
  (exists r, main book = Some r /\
             written r = [(INDEX_FILE, page_title ++ render doc)])
  /\ in_section doc "B" "BCC" [("Chapter One", file)]
  /\ in_section doc "O" "Octree" [("Chapter One", file)]
  /\ render_item (TermLine "BCC" [("Chapter One", file)])
     = "- **BCC**: " ++ ("[Chapter One](../" ++ file ++ ")") ++ nl
  /\ render_item (TermLine "Octree" [("Chapter One", file)])
     = "- **Octree**: " ++ ("[Chapter One](../" ++ file ++ ")") ++ nl
  /\ render_item (Header "B") = nl ++ "## B" ++ nl ++ nl
  /\ render_item (Header "O") = nl ++ "## O" ++ nl ++ nl.
Proof.
  intros Hname Hns Hlines Hbefore Hline Hcontent book doc.
  assert (Htitle : get_title (path_join BOOK_DIR file) content = "Chapter One").
  { rewrite (get_title_first_heading _ content before line after Hlines Hbefore).
    - destruct Hline as [-> | ->]; vm_compute; reflexivity.
    - destruct Hline as [-> | ->]; reflexivity. }
  assert (Hscanned : scanned book
                     = [ {| sf_path := path_join BOOK_DIR file;
                            sf_title := "Chapter One"; sf_link := file;
                            sf_content := content |} ]).
  { unfold scanned, book, one_file_book, scanned_in_dir. cbn [walk flat_map fst snd filter app].
    rewrite Hname. cbn [map app]. unfold scanned_entry. cbn [fst snd].
    now rewrite Htitle, (link_in_root _ Hns). }
  assert (Hget : forall term, In term EXPLICIT_TERMS ->
                              contains_whole_word term content ->
                              dict_get (scan_files book) term = [("Chapter One", file)]).
  { intros term Hin Hw. rewrite (scan_files_get _ _ Hin), Hscanned.
    unfold hit_links. cbn [filter sf_content].
    apply term_hit_iff in Hw. rewrite Hw. reflexivity. }
  assert (Hsec : forall term, In term EXPLICIT_TERMS ->
                              contains_whole_word term content ->
                              in_section doc (letter_of term) term [("Chapter One", file)]).
  { intros term Hin Hw. pose proof (Hget term Hin Hw) as Hg.
    change [("Chapter One", file)] with (unique_links [("Chapter One", file)]).
    rewrite <- Hg. apply document_in_section.
    - apply dict_get_key. rewrite Hg. discriminate.
    - now apply vocabulary_nonempty. }
  split; [apply main_writes; now apply one_file_book_writable|].
  split; [|split; [|repeat split; reflexivity]].
  - apply (Hsec "BCC"); [apply mem_In; vm_compute; reflexivity|].
    rewrite Hcontent.
    apply (whole_word_between pre "uses an Octree and " "BCC" " lattice" post
             " " "B" "C" " "); reflexivity.
  - apply (Hsec "Octree"); [apply mem_In; vm_compute; reflexivity|].
    rewrite Hcontent.
    apply (whole_word_between pre "uses an " "Octree" " and BCC lattice" post
             " " "O" "e" " "); reflexivity.
Qed.

Lemma C1_chapter_one_indexed_witness :
  in_section
    (document (scan_files (one_file_book "ch1.md"
       ("# Chapter One" ++ nl ++ nl ++ "It uses an Octree and BCC lattice." ++ nl))))
    "B" "BCC" [("Chapter One", "ch1.md")].
Proof.
  refine (proj1 (proj2 (C1_chapter_one_indexed "ch1.md"
            ("# Chapter One" ++ nl ++ nl ++ "It uses an Octree and BCC lattice." ++ nl)
            [] [nl; "It uses an Octree and BCC lattice." ++ nl]
            ("# Chapter One" ++ nl)
            ("# Chapter One" ++ nl ++ nl ++ "It ") ("." ++ nl)
            _ _ _ _ _ _))).
  - vm_compute. reflexivity.
  - vm_compute. reflexivity.
  - vm_compute. reflexivity.
  - constructor.
  - left. reflexivity.
  - vm_compute. reflexivity.
Defined.



(** C10.  The links recorded for a term are in the order of the directory walk,
    and on the term's line of the generated page (the one [main] writes) the
    link of a title carries the path of the last recorded pair with that
    title; every earlier path recorded with the title is gone.  With "Intro"
    recorded first for a.md and then for part1/b.md, the page links
    part1/b.md on the line of Octree. *)
Theorem C10_last_path_survives :
  (forall (book : tree) (term : string),
      In term (keys (scan_files book)) ->
      exists page before after links,
        generate_index_md (scan_files book) = Some page
        /\ (forall r, main book = Some r -> written r = [(INDEX_FILE, page)])
        /\ page = before
                  ++ ("- **" ++ term ++ "**: "
                      ++ join ", "
                           (map (fun l => "[" ++ fst l ++ "](../" ++ snd l ++ ")") links)
                      ++ nl)
                  ++ after
        /\ (exists start, before = start ++ nl)
        /\ dict_get (scan_files book) term = hit_links term (scanned book)
        /\ (forall title path,
              In (title, path) links
              <-> last_path_of (hit_links term (scanned book)) title path)
        /\ (forall title path earlier later,
              hit_links term (scanned book)
              = (earlier ++ (title, path) :: later)%list ->
              In title (map fst later) -> ~ In (title, path) later ->
              ~ In (title, path) links))
  /\ dict_get (scan_files same_title_book) "Octree"
     = [("Intro", "a.md"); ("Intro", "part1/b.md")]
  /\ generate_index_md (scan_files same_title_book)
     = Some ("# Index" ++ nl ++ nl
             ++ nl ++ "## O" ++ nl ++ nl
             ++ "- **Octree**: [Intro](../part1/b.md)" ++ nl)
  /\ option_map written (main same_title_book)
     = Some [("book/back_matter/index.md",
              "# Index" ++ nl ++ nl
              ++ nl ++ "## O" ++ nl ++ nl
              ++ "- **Octree**: [Intro](../part1/b.md)" ++ nl)].
Proof.
  split; [|split; [|split]]; [|vm_compute; reflexivity..].
  intros book term Hkey. set (idx := scan_files book).
  destruct (page_has_line idx term (scan_files_keys_ok book) Hkey)
    as (before & after & Hpage & Hstart).
  assert (Hvoc : In term EXPLICIT_TERMS)
    by apply (proj2 (scan_files_keys_ok book) _ Hkey).
  exists (before ++ term_line term (unique_links (dict_get idx term)) ++ after),
         before, after, (unique_links (dict_get idx term)).
  split; [exact Hpage|].
  split; [intros r Hr; apply (main_written book r Hr _ Hpage)|].
  split; [reflexivity|]. split; [exact Hstart|].
  unfold idx. rewrite (scan_files_get _ _ Hvoc).
  split; [reflexivity|]. split; [intros title path; apply unique_links_In|].
  intros title path earlier later E Hlater Hnotlater Hin.
  apply unique_links_In in Hin.
  destruct (last_path_exists _ _ Hlater) as (q & b & a & Ea & Hlast).
  assert (Hq : last_path_of (hit_links term (scanned book)) title q).
  { exists (earlier ++ (title, path) :: b)%list, a. split; [|exact Hlast].
    rewrite E, Ea, <- app_assoc. reflexivity. }
  rewrite (last_path_unique _ _ _ _ Hin Hq) in Hnotlater.
  apply Hnotlater. rewrite Ea. apply in_elt.
Qed.

Lemma C10_last_path_survives_witness :
  In "Octree" (keys (scan_files same_title_book))
  /\ exists page before after links,
       generate_index_md (scan_files same_title_book) = Some page
       /\ page = before
                 ++ ("- **Octree**: "
                     ++ join ", " (map (fun l => "[" ++ fst l ++ "](../" ++ snd l ++ ")") links)
                     ++ nl)
                 ++ after
       /\ (In ("Intro", "part1/b.md") links
           <-> last_path_of (hit_links "Octree" (scanned same_title_book))
                            "Intro" "part1/b.md").
Proof.
  assert (Hin : In "Octree" (keys (scan_files same_title_book)))
    by (vm_compute; left; reflexivity).
  split; [exact Hin|].
  destruct (proj1 C10_last_path_survives same_title_book "Octree" Hin)
    as (page & before & after & links & Hpage & _ & Htext & _ & _ & Hlast & _).
  exists page, before, after, links.
  split; [exact Hpage|]. split; [exact Htext|]. apply Hlast.
Defined.

(** C6.  The page generated for a book (the one [main] writes) is the title
    followed by blocks: a section header, of text "## letter" between an empty
    line before and one after, or a term line, of text
    "- **term**: [title](../path), ...".  The term lines are in strict
    case-insensitive order of their terms, the section headers are in the same
    strict order of their letters, every header is directly followed by a term
    line of its letter which no earlier term line has, and every term line
    stands in the section of its letter, after that header with term lines
    only in between. *)
Theorem C6_sorted_terms_and_headers (book : tree) :
  let doc := document (scan_files book) in
  generate_index_md (scan_files book) = Some (page_title ++ render doc)
  /\ StronglySorted lt (terms_of doc)
  /\ StronglySorted lt (letters_of doc)
  /\ (forall before letter after,
        doc = (before ++ Header letter :: after)%list ->
        (exists t links rest,
            after = TermLine t links :: rest /\ letter_of t = letter)
        /\ Forall (fun t => letter_of t <> letter) (terms_of before))
  /\ (forall t links,
        In (TermLine t links) doc -> in_section doc (letter_of t) t links)
  /\ (forall r, main book = Some r ->
                written r = [(INDEX_FILE, page_title ++ render doc)])
  /\ page_title = "# Index" ++ nl ++ nl
  /\ (forall letter,
        render_item (Header letter) = nl ++ "## " ++ letter ++ nl ++ nl)
  /\ (forall t links,
        render_item (TermLine t links)
        = "- **" ++ t ++ "**: "
          ++ join ", " (map (fun l => "[" ++ fst l ++ "](../" ++ snd l ++ ")") links)
          ++ nl)
  /\ (forall i rest, render (i :: rest) = render_item i ++ render rest)
  /\ render [] = "".
Proof.
  intros doc. pose proof (scan_files_keys_ok book) as Hok.
  pose proof (sorted_keys_strict _ Hok) as Hstrict.
  assert (Hne : Forall (fun t => t <> "") (sorted_by_lower (keys (scan_files book)))).
  { apply Forall_forall. intros t Ht.
    apply vocabulary_nonempty, (proj2 Hok), sorted_keys_in, Ht. }
  split; [now apply generate_index_md_document|].
  split; [unfold doc, document; now rewrite terms_of_loop|].
  split; [apply letters_sorted; [apply sorted_by_lower_sorted | exact Hne]|].
  split.
  { intros before letter after E. split.
    - now apply (header_then_line _ _ _ _ _ _ E).
    - apply (header_is_first (scan_files book) _ (sorted_by_lower_sorted _) Hne
               _ _ _ _ E). }
  split.
  { intros t links Hin. apply term_line_in_loop in Hin as [Hin ->].
    apply document_in_section; [now apply sorted_keys_in|].
    rewrite Forall_forall in Hne. now apply Hne. }
  split.
  { intros r Hr.
    apply (main_written book r Hr _ (generate_index_md_document _ Hok)). }
  repeat split; reflexivity.
Qed.

Lemma C6_sorted_terms_and_headers_witness :
  generate_index_md (scan_files three_letter_book)
  = Some ("# Index" ++ nl ++ nl
          ++ nl ++ "## B" ++ nl ++ nl
          ++ "- **BCC**: [Chapter One](../ch1.md)" ++ nl
          ++ nl ++ "## G" ++ nl ++ nl
          ++ "- **Geospatial**: [Chapter One](../ch1.md)" ++ nl
          ++ "- **GPU**: [Chapter One](../ch1.md)" ++ nl
          ++ nl ++ "## L" ++ nl ++ nl
          ++ "- **Lattice**: [Chapter One](../ch1.md)" ++ nl)
  /\ terms_of (document (scan_files three_letter_book))
     = ["BCC"; "Geospatial"; "GPU"; "Lattice"]
  /\ StronglySorted lt ["BCC"; "Geospatial"; "GPU"; "Lattice"]
  /\ StronglySorted lt ["B"; "G"; "L"]
  /\ Forall (fun t => letter_of t <> "G") ["BCC"]
  /\ in_section (document (scan_files three_letter_book)) "G" "GPU"
                [("Chapter One", "ch1.md")].
Proof.
  pose proof (C6_sorted_terms_and_headers three_letter_book) as H.
  cbv zeta in H.
  destruct H as (Hpage & Hterms & Hletters & Hheader & Hsection & _).
  assert (Hdoc : document (scan_files three_letter_book)
                 = [ Header "B"; TermLine "BCC" [("Chapter One", "ch1.md")];
                     Header "G"; TermLine "Geospatial" [("Chapter One", "ch1.md")];
                     TermLine "GPU" [("Chapter One", "ch1.md")];
                     Header "L"; TermLine "Lattice" [("Chapter One", "ch1.md")] ])
    by (vm_compute; reflexivity).
  rewrite Hdoc in Hpage, Hterms, Hletters, Hheader, Hsection.
  split; [exact Hpage|]. split; [now rewrite Hdoc|].
  split; [exact Hterms|]. split; [exact Hletters|]. split.
  - exact (proj2 (Hheader
                    [Header "B"; TermLine "BCC" [("Chapter One", "ch1.md")]] "G"
                    [ TermLine "Geospatial" [("Chapter One", "ch1.md")];
                      TermLine "GPU" [("Chapter One", "ch1.md")];
                      Header "L"; TermLine "Lattice" [("Chapter One", "ch1.md")] ]
                    eq_refl)).
  - rewrite Hdoc.
    apply (Hsection "GPU" [("Chapter One", "ch1.md")]).
    right. right. right. right. left. reflexivity.
Defined.

End IndexClaims.

(** ** Files the scan leaves out *)

Module Exclusions.
Import BookIndex ScanFacts Order Dedup Page IndexClaims.

Lemma tree_induction (P : tree -> Prop) :
  (forall dirs files, Forall (fun e => P (snd e)) dirs -> P (Node dirs files)) ->
  forall t, P t.
Proof.
  intros step. fix IH 1. intros [dirs files]. apply step.
  induction dirs as [|e rest IHrest]; constructor; [apply IH | exact IHrest].
Qed.

Lemma walk_In (top : string) (dirs : list (string * tree))
    (files : list (string * string)) (v : string * list (string * string)) :
  In v (walk top (Node dirs files)) <->
  v = (top, files)
  \/ exists d sub, In (d, sub) dirs /\ mem d IGNORE_DIRS = false
                   /\ In v (walk (path_join top d) sub).
Proof.
  cbn [walk]. cbn [In].
  assert (H : forall ds,
    In v ((fix visit (ds : list (string * tree)) :=
             match ds with
             | [] => []
             | (d, sub) :: rest =>
                 ((if mem d IGNORE_DIRS then [] else walk (path_join top d) sub)
                  ++ visit rest)%list
             end) ds)
    <-> exists d sub, In (d, sub) ds /\ mem d IGNORE_DIRS = false
                      /\ In v (walk (path_join top d) sub)).
  { induction ds as [|[d sub] rest IH].
    - split; [intros [] | intros (d & sub & [] & _)].
    - rewrite in_app_iff, IH. split.
      + intros [H | (d' & sub' & Hin & Hm & Hv)].
        * destruct (mem d IGNORE_DIRS) eqn:Hm; [destruct H|].
          exists d, sub. split; [now left | auto].
        * exists d', sub'. split; [now right | auto].
      + intros (d' & sub' & [E | Hin] & Hm & Hv).
        * injection E as -> ->. left. now rewrite Hm.
        * right. exists d', sub'. auto. }
  rewrite H. split; intros [E | E]; auto.
Qed.

Lemma well_named_inv (dirs : list (string * tree)) (files : list (string * string)) :
  well_named (Node dirs files) = true ->
  (forall file content, In (file, content) files -> name_ok file = true)
  /\ (forall d sub, In (d, sub) dirs -> name_ok d = true /\ well_named sub = true).
Proof.
  cbn [well_named]. intros H. apply andb_true_iff in H as [Hf Hd]. split.
  - intros file content Hin. rewrite forallb_forall in Hf. exact (Hf _ Hin).
  - induction dirs as [|[d0 sub0] rest IH]; intros d sub Hin; [destruct Hin|].
    apply andb_true_iff in Hd as [Hd Hrest]. apply andb_true_iff in Hd as [Hn Hw].
    destruct Hin as [E | Hin]; [injection E as <- <-; auto | now apply IH].
Qed.

(** Every directory of the walk is reached through directories that are not
    ignored, and its files lie there in the book. *)
Lemma walk_located (book : tree) :
  forall top root files,
    In (root, files) (walk top book) ->
    exists ds,
      root = dir_path top ds
      /\ Forall (fun d => mem d IGNORE_DIRS = false) ds
      /\ (well_named book = true -> Forall (fun d => name_ok d = true) ds)
      /\ forall file content,
          In (file, content) files ->
          located book ds file content
          /\ (well_named book = true -> name_ok file = true).
Proof.
  induction book as [dirs files0 IH] using tree_induction.
  intros top root files Hin. apply walk_In in Hin as [E | (d & sub & Hd & Hm & Hv)].
  - injection E as -> ->. exists []. split; [reflexivity|].
    split; [constructor|]. split; [constructor|].
    intros file content Hf. split; [now constructor|].
    intros Hw. now apply (proj1 (well_named_inv _ _ Hw) file content).
  - rewrite Forall_forall in IH.
    destruct (IH (d, sub) Hd _ _ _ Hv) as (ds & -> & Hall & Hnames & Hfiles).
    exists (d :: ds). split; [reflexivity|]. split; [now constructor|]. split.
    + intros Hw. destruct (proj2 (well_named_inv _ _ Hw) d sub Hd) as [Hn Hs].
      constructor; [exact Hn | now apply Hnames].
    + intros file content Hf. destruct (Hfiles _ _ Hf) as [Hl Hn]. split.
      * now apply (located_below dirs files0 d sub).
      * intros Hw. apply Hn. now apply (proj2 (well_named_inv _ _ Hw) d sub).
Qed.

(** A scanned file lies in the book, is not excluded, and has sound names. *)
Lemma scanned_located (book : tree) (f : scanned_file) :
  In f (scanned book) ->
  exists ds file,
    located book ds file (sf_content f)
    /\ sf_path f = file_path ds file
    /\ sf_link f = relpath (file_path ds file) BOOK_DIR
    /\ Forall (fun d => mem d IGNORE_DIRS = false) ds
    /\ is_scanned_name file = true
    /\ (well_named book = true ->
        Forall (fun d => name_ok d = true) ds /\ name_ok file = true).
Proof.
  unfold scanned. intros Hin. apply in_flat_map in Hin as ([root files] & Hw & Hf).
  unfold scanned_in_dir in Hf. cbn [fst snd] in Hf.
  apply in_map_iff in Hf as ([file content] & <- & He).
  apply filter_In in He as [He Hname]. cbn [fst] in Hname.
  destruct (walk_located _ _ _ _ Hw) as (ds & -> & Hall & Hnames & Hfiles).
  destruct (Hfiles _ _ He) as [Hl Hn].
  exists ds, file. cbn [scanned_entry sf_content sf_path sf_link fst snd].
  repeat split; auto.
Qed.

Lemma last_slash_has_slash (n : string) :
  last_char n = Some "/"%char -> has_char "/" n = true.
Proof.
  induction n as [|c n IH]; [discriminate|]. intros H. simpl.
  destruct n as [|d n'].
  - unfold last_char in H. simpl in H. injection H as ->. reflexivity.
  - rewrite (IH H). apply orb_true_r.
Qed.

Lemma name_ok_inv (n : string) :
  name_ok n = true ->
  n <> "" /\ has_char "/" n = false /\ last_char n <> Some "/"%char.
Proof.
  unfold name_ok. intros H. apply andb_true_iff in H as [Hne Hns].
  apply negb_true_iff in Hne, Hns. split; [|split].
  - intros ->. discriminate.
  - exact Hns.
  - intros Hl. apply last_slash_has_slash in Hl. congruence.
Qed.

Lemma not_endswith_slash (a : string) :
  last_char a <> Some "/"%char -> endswith a "/" = false.
Proof.
  intros Hl. destruct (endswith a "/") eqn:E; [|reflexivity].
  destruct (endswith_inv _ _ E) as [x ->]. exfalso. apply Hl.
  apply Titles.last_char_snoc.
Qed.

Lemma path_join_name (a n : string) :
  a <> "" -> last_char a <> Some "/"%char -> name_ok n = true ->
  path_join a n = a ++ "/" ++ n
  /\ a ++ "/" ++ n <> "" /\ last_char (a ++ "/" ++ n) <> Some "/"%char.
Proof.
  intros Ha Hl Hn. destruct (name_ok_inv _ Hn) as (Hne & Hns & Hnl).
  split; [|split].
  - unfold path_join. rewrite (no_slash_not_absolute _ Hns).
    destruct (String.eqb_spec a ""); [contradiction|].
    now rewrite (not_endswith_slash _ Hl).
  - destruct a; [congruence | discriminate].
  - unfold last_char. rewrite <- append_assoc, ReFacts.last_or_app.
    destruct n as [|c n]; [congruence|]. exact Hnl.
Qed.

Lemma dir_path_slashed (ds : list string) :
  Forall (fun d => name_ok d = true) ds ->
  forall top,
    top <> "" -> last_char top <> Some "/"%char ->
    dir_path top ds = top ++ slashed ds
    /\ dir_path top ds <> "" /\ last_char (dir_path top ds) <> Some "/"%char.
Proof.
  induction 1 as [|d ds Hd _ IH]; intros top Ht Hl; cbn [dir_path fold_left slashed].
  - now rewrite append_empty_r.
  - destruct (path_join_name top d Ht Hl Hd) as (-> & Hne & Hnl).
    destruct (IH _ Hne Hnl) as (E & H1 & H2). unfold dir_path in *.
    rewrite E in H1, H2. rewrite E.
    split; [now rewrite !append_assoc | auto].
Qed.

Lemma slashed_app (l r : list string) : slashed (l ++ r) = slashed l ++ slashed r.
Proof.
  induction l as [|n l IH]; [reflexivity|]. cbn [app slashed].
  now rewrite IH, !append_assoc.
Qed.

Lemma file_path_slashed (ds : list string) (file : string) :
  Forall (fun d => name_ok d = true) ds -> name_ok file = true ->
  file_path ds file = "book" ++ slashed (ds ++ [file]).
Proof.
  intros Hds Hf. unfold file_path.
  destruct (dir_path_slashed ds Hds BOOK_DIR) as (E & Hne & Hl);
    [discriminate | discriminate |].
  destruct (path_join_name _ file Hne Hl Hf) as (-> & _).
  rewrite E, slashed_app. cbn [slashed].
  now rewrite append_empty_r, !append_assoc.
Qed.

Lemma relpath_slashed (n : string) (ns : list string) :
  relpath ("book" ++ slashed (n :: ns)) BOOK_DIR = n ++ slashed ns.
Proof.
  cbn [slashed]. unfold relpath, startswith.
  change (BOOK_DIR ++ "/") with "book/".
  change ("book" ++ "/" ++ n ++ slashed ns) with ("book/" ++ (n ++ slashed ns)).
  now rewrite prefix_app.
Qed.

Lemma no_slash_split (n : string) :
  forall n' t t',
    has_char "/" n = false -> has_char "/" n' = false ->
    (t = "" \/ Re.head t = Some "/"%char) ->
    (t' = "" \/ Re.head t' = Some "/"%char) ->
    n ++ t = n' ++ t' -> n = n' /\ t = t'.
Proof.
  induction n as [|c n IH]; intros [|c' n'] t t' Hn Hn' Ht Ht' E; simpl in E.
  - auto.
  - subst t. destruct Ht as [Hx | Hx]; [discriminate|].
    simpl in Hx. injection Hx as ->. simpl in Hn'. discriminate.
  - subst t'. destruct Ht' as [Hx | Hx]; [discriminate|].
    simpl in Hx. injection Hx as ->. simpl in Hn. discriminate.
  - injection E as <- E. simpl in Hn, Hn'.
    apply orb_false_iff in Hn as [_ Hn]. apply orb_false_iff in Hn' as [_ Hn'].
    destruct (IH _ _ _ Hn Hn' Ht Ht' E) as [-> ->]. auto.
Qed.

Lemma slashed_head (l : list string) :
  slashed l = "" \/ Re.head (slashed l) = Some "/"%char.
Proof. destruct l; [now left | now right]. Qed.

Lemma slashed_inj (l : list string) :
  forall l',
    Forall (fun d => name_ok d = true) l -> Forall (fun d => name_ok d = true) l' ->
    slashed l = slashed l' -> l = l'.
Proof.
  induction l as [|n l IH]; intros [|n' l'] Hl Hl' E; cbn [slashed] in E;
    try discriminate; [reflexivity|].
  inversion Hl as [|? ? Hn Hr]; subst. inversion Hl' as [|? ? Hn' Hr']; subst.
  injection E as E.
  destruct (name_ok_inv _ Hn) as (_ & Hs & _).
  destruct (name_ok_inv _ Hn') as (_ & Hs' & _).
  destruct (no_slash_split _ _ _ _ Hs Hs' (slashed_head l) (slashed_head l') E)
    as [-> E'].
  f_equal. now apply IH.
Qed.

(** Two files of sound names with the same link are the same file. *)
Lemma link_path_inj (ds ds' : list string) (file file' : string) :
  Forall (fun d => name_ok d = true) ds -> name_ok file = true ->
  Forall (fun d => name_ok d = true) ds' -> name_ok file' = true ->
  relpath (file_path ds file) BOOK_DIR = relpath (file_path ds' file') BOOK_DIR ->
  ds = ds' /\ file = file'.
Proof.
  intros Hds Hf Hds' Hf' E.
  rewrite (file_path_slashed _ _ Hds Hf), (file_path_slashed _ _ Hds' Hf') in E.
  assert (Hall : Forall (fun d => name_ok d = true) (ds ++ [file]))
    by (apply Forall_app; auto).
  assert (Hall' : Forall (fun d => name_ok d = true) (ds' ++ [file']))
    by (apply Forall_app; auto).
  assert (El : (ds ++ [file] = ds' ++ [file'])%list).
  { destruct (ds ++ [file])%list as [|n ns] eqn:E1; [now destruct ds|].
    destruct (ds' ++ [file'])%list as [|n' ns'] eqn:E2; [now destruct ds'|].
    rewrite !relpath_slashed in E.
    apply slashed_inj; [assumption | assumption|].
    cbn [slashed]. now rewrite E. }
  now apply app_inj_tail in El.
Qed.

Lemma is_scanned_name_inv (file : string) :
  is_scanned_name file = true ->
  endswith file ".md" = true /\ ~ In file IGNORE_FILES.
Proof.
  unfold is_scanned_name. intros H. apply negb_true_iff in H.
  apply orb_false_iff in H as [H1 H2]. apply negb_false_iff in H1.
  split; [exact H1|]. intros Hin. apply mem_In in Hin. congruence.
Qed.

Lemma dict_get_absent (idx : index) (k : string) :
  ~ In k (keys idx) -> dict_get idx k = [].
Proof.
  intros Hk. destruct (dict_get idx k) eqn:E; [reflexivity|].
  exfalso. apply Hk, dict_get_key. rewrite E. discriminate.
Qed.

(** C7.  In a book of sound entry names, a file that lies below a directory of
    the ignore list (at any depth), that bears a name of the ignore list, or
    whose name does not end in ".md" is not among the files the scan reads, is
    recorded under no term, and is linked from no line of the generated
    index. *)
Theorem C7_excluded_never_scanned
    (book : tree) (ds : list string) (file content : string) :
  well_named book = true ->
  located book ds file content ->
  excluded ds file ->
  (forall f, In f (scanned book) ->
             sf_path f <> file_path ds file
             /\ sf_link f <> relpath (file_path ds file) BOOK_DIR)
  /\ (forall term title,
        ~ In (title, relpath (file_path ds file) BOOK_DIR)
             (dict_get (scan_files book) term))
  /\ (forall term links title,
        In (TermLine term links) (document (scan_files book)) ->
        ~ In (title, relpath (file_path ds file) BOOK_DIR) links).
Proof.
  intros Hw Hloc Hex.
  assert (Hnames : Forall (fun d => name_ok d = true) ds /\ name_ok file = true).
  { clear Hex. revert Hw. induction Hloc as [dirs files file content Hin
                                            | dirs files d sub ds file content Hin Hl IH];
      intros Hw; destruct (well_named_inv _ _ Hw) as [Hf Hd].
    - split; [constructor | now apply (Hf file content)].
    - destruct (Hd _ _ Hin) as [Hn Hs]. destruct (IH Hs) as [H1 H2].
      split; [now constructor | assumption]. }
  destruct Hnames as [Hds Hfile].
  assert (Hlink : forall f, In f (scanned book) ->
                            sf_link f <> relpath (file_path ds file) BOOK_DIR).
  { intros f Hf E.
    destruct (scanned_located _ _ Hf)
      as (ds' & file' & _ & _ & El & Hnot & Hname & Hok).
    destruct (Hok Hw) as [Hds' Hfile'].
    rewrite El in E.
    destruct (link_path_inj _ _ _ _ Hds' Hfile' Hds Hfile E) as [-> ->].
    destruct (is_scanned_name_inv _ Hname) as [Hmd Hnotign].
    destruct Hex as [(d & Hd & Hign) | [Hign | Hext]].
    - rewrite Forall_forall in Hnot. apply mem_In in Hign.
      rewrite (Hnot _ Hd) in Hign. discriminate.
    - contradiction.
    - congruence. }
  assert (Hrec : forall term title,
             ~ In (title, relpath (file_path ds file) BOOK_DIR)
                  (dict_get (scan_files book) term)).
  { intros term title Hin.
    destruct (in_dec string_dec term EXPLICIT_TERMS) as [Hv | Hv].
    - rewrite (scan_files_get _ _ Hv) in Hin. unfold hit_links in Hin.
      apply in_map_iff in Hin as (f & E & Hf). apply filter_In in Hf as [Hf _].
      injection E as _ E. now apply (Hlink f).
    - rewrite dict_get_absent in Hin; [destruct Hin|].
      intros Hk. apply Hv. now apply (proj2 (scan_files_keys_ok book)). }
  split; [|split; [exact Hrec|]].
  - intros f Hf. split; [|now apply Hlink].
    intros E. apply (Hlink f Hf).
    destruct (scanned_located _ _ Hf) as (ds' & file' & _ & Ep & El & _).
    now rewrite El, <- Ep, E.
  - intros term links title Hin Hl.
    apply term_line_in_loop in Hin as [_ ->].
    apply unique_links_In, last_path_In in Hl. now apply (Hrec term title).
Qed.

Lemma C7_excluded_never_scanned_witness :
  well_named book_with_exclusions = true
  /\ located book_with_exclusions ["images"] "fig.md" ("# Figure" ++ nl ++ "Octree" ++ nl)
  /\ excluded ["images"] "fig.md"
  /\ forall term title,
       ~ In (title, relpath (file_path ["images"] "fig.md") BOOK_DIR)
            (dict_get (scan_files book_with_exclusions) term).
Proof.
  assert (Hw : well_named book_with_exclusions = true) by (vm_compute; reflexivity).
  assert (Hl : located book_with_exclusions ["images"] "fig.md"
                       ("# Figure" ++ nl ++ "Octree" ++ nl)).
  { unfold book_with_exclusions.
    eapply located_below; [left; reflexivity|].
    apply located_here. left. reflexivity. }
  assert (He : excluded ["images"] "fig.md").
  { left. exists "images". split; left; reflexivity. }
  split; [exact Hw|]. split; [exact Hl|]. split; [exact He|].
  exact (proj1 (proj2 (C7_excluded_never_scanned _ _ _ _ Hw Hl He))).
Defined.

End Exclusions.

(** ** The figure generator *)

Module FigureClaims.
Import BookFigures.

Section Respects.
Variable R : state -> state -> Prop.
Hypothesis R_refl : forall s, R s s.
Hypothesis R_trans : forall a b c, R a b -> R b c -> R a c.

Lemma respects_ret {A} (a : A) : respects R (ret a).
Proof. intros s o s' E. injection E as _ <-. apply R_refl. Qed.

Lemma respects_bind {A B} (c : M A) (k : A -> M B) :
  respects R c -> (forall a, respects R (k a)) -> respects R (bind c k).
Proof.
  intros Hc Hk s o s' E. unfold bind in E.
  destruct (c s) as [[a|e] s1] eqn:Ec.
  - apply (R_trans _ s1); [now apply (Hc _ _ _ Ec) | now apply (Hk a _ _ _ E)].
  - injection E as _ <-. now apply (Hc _ _ _ Ec).
Qed.

Lemma respects_try (body : M unit) (handler : raised -> M unit) :
  respects R body -> (forall e, respects R (handler e)) ->
  respects R (try_except_Exception body handler).
Proof.
  intros Hb Hh s o s' E. unfold try_except_Exception in E.
  destruct (body s) as [[a|e] s1] eqn:Eb.
  - injection E as _ <-. now apply (Hb _ _ _ Eb).
  - destruct e as [message | name | status].
    + apply (R_trans _ s1); [now apply (Hb _ _ _ Eb) | now apply (Hh _ _ _ _ E)].
    + injection E as _ <-. now apply (Hb _ _ _ Eb).
    + injection E as _ <-. now apply (Hb _ _ _ Eb).
Qed.

Section Calls.
Variable lib : backend.
Hypothesis R_call :
  forall c, (forall path, c <> plt_savefig path) -> respects R (call lib c).

Lemma respects_label_bars (bars : list string) : respects R (label_bars lib bars).
Proof.
  induction bars as [|b bars IH]; cbn [label_bars]; [apply respects_ret|].
  repeat (apply respects_bind; [apply R_call; discriminate | intros _]).
  exact IH.
Qed.

End Calls.
End Respects.

Lemma same_dirs_refl s : same_dirs s s.
Proof. reflexivity. Qed.

Lemma same_dirs_trans a b c : same_dirs a b -> same_dirs b c -> same_dirs a c.
Proof. unfold same_dirs. congruence. Qed.

Lemma saved_within_refl allowed s : saved_within allowed s s.
Proof. exists []. split; [now rewrite app_nil_r | intros x []]. Qed.

Lemma saved_within_trans allowed a b c :
  saved_within allowed a b -> saved_within allowed b c -> saved_within allowed a c.
Proof.
  intros (l & E & Hl) (l' & E' & Hl'). exists (l ++ l')%list.
  split; [now rewrite E', E, app_assoc | now apply incl_app].
Qed.

Lemma call_same_dirs lib c : respects same_dirs (call lib c).
Proof.
  intros s o s' E. unfold call in E.
  destruct (lib (calls s) c); injection E as _ <-; [reflexivity|].
  destruct c; reflexivity.
Qed.

Lemma print_same_dirs line : respects same_dirs (print line).
Proof. intros s o s' E. injection E as _ <-. reflexivity. Qed.

Lemma saved_within_same allowed s s' : saved s' = saved s -> saved_within allowed s s'.
Proof. intros E. exists []. split; [now rewrite app_nil_r | intros x []]. Qed.

Lemma call_saved lib c allowed :
  (forall path, c = plt_savefig path -> In path allowed) ->
  respects (saved_within allowed) (call lib c).
Proof.
  intros Hc s o s' E. unfold call in E.
  destruct (lib (calls s) c); injection E as _ <-;
    [now apply saved_within_same|].
  destruct c; try now apply saved_within_same.
  exists [path]. split; [reflexivity|].
  intros x [<-|[]]. now apply Hc.
Qed.

Lemma print_saved line allowed : respects (saved_within allowed) (print line).
Proof. intros s o s' E. injection E as _ <-. now apply saved_within_same. Qed.

(** A plotting call saves its own figure and no other. *)
Lemma plot_neighbor_lookup_saved lib :
  respects (saved_within [figure_path neighbor_lookup_png]) (plot_neighbor_lookup lib).
Proof.
  unfold plot_neighbor_lookup. cbv zeta.
  repeat (apply (respects_bind _ (saved_within_trans _));
          [first [ apply call_saved; intros p E; inversion E; now left
                 | apply (respects_label_bars _ (saved_within_refl _) (saved_within_trans _));
                   intros c Hc; apply call_saved; intros p E; now apply Hc in E ]
          | intros _ ]).
  apply call_saved. discriminate.
Qed.

Lemma plot_memory_usage_saved lib :
  respects (saved_within [figure_path memory_efficiency_png]) (plot_memory_usage lib).
Proof.
  unfold plot_memory_usage. cbv zeta.
  repeat (apply (respects_bind _ (saved_within_trans _));
          [first [ apply call_saved; intros p E; inversion E; now left
                 | apply (respects_label_bars _ (saved_within_refl _) (saved_within_trans _));
                   intros c Hc; apply call_saved; intros p E; now apply Hc in E ]
          | intros _ ]).
  apply call_saved. discriminate.
Qed.

Ltac keep_dirs :=
  first [ apply call_same_dirs
        | apply print_same_dirs
        | apply (respects_label_bars _ same_dirs_refl same_dirs_trans);
          intros; apply call_same_dirs
        | apply (respects_bind _ same_dirs_trans); [keep_dirs | intros _; keep_dirs] ].

Lemma plot_all_same_dirs lib : respects same_dirs (plot_all lib).
Proof.
  unfold plot_all, plot_neighbor_lookup, plot_memory_usage, plot_isotropy. cbv zeta.
  keep_dirs.
Qed.

Lemma mem_snoc (p q : string) (l : list string) :
  mem p (l ++ [q]) = mem p l || String.eqb p q.
Proof.
  unfold mem. rewrite existsb_app. cbn [existsb]. now rewrite orb_false_r.
Qed.

Lemma add_path_In (l : list string) (p q : string) :
  In q (add_path l p) <-> In q l \/ q = p.
Proof.
  unfold add_path. destruct (mem p l) eqn:E.
  - apply mem_In in E. split; [auto | intros [H | ->]; assumption].
  - rewrite in_app_iff. simpl. intuition.
Qed.

(** What [ensure_output_dir] does, by the state it starts in. *)
Lemma ensure_output_dir_cases (s : state) :
  (path_exists s OUTPUT_DIR = true /\ ensure_output_dir s = (Returned tt, s))
  \/ (path_exists s OUTPUT_DIR = false /\ mem "book" (files s) = true
      /\ ensure_output_dir s = (Raised not_a_directory, s))
  \/ (path_exists s OUTPUT_DIR = false /\ mem "book" (files s) = false
      /\ ensure_output_dir s = (Returned tt, with_dirs s (made_dirs s))).
Proof.
  unfold ensure_output_dir.
  destruct (path_exists s OUTPUT_DIR) eqn:Eout; cbn [negb]; [now left|].
  right. unfold makedirs.
  change (rev (path_prefixes "" OUTPUT_DIR)) with ["book/images"; "book"].
  cbn [makedirs_up List.hd_error]. unfold bind, ret.
  unfold path_exists in Eout. apply orb_false_iff in Eout as [Ed Ef].
  unfold made_dirs, with_dirs.
  destruct (mem "book" (files s)) eqn:Ebf.
  - left. split; [reflexivity|]. split; [reflexivity|].
    assert (Hb : path_exists s "book" = true)
      by (unfold path_exists; rewrite Ebf; apply orb_true_r).
    rewrite Hb. unfold mkdir, path_exists. change OUTPUT_DIR with "book/images" in *.
    now rewrite Ed, Ef, Ebf.
  - right. split; [reflexivity|]. split; [reflexivity|].
    destruct (path_exists s "book") eqn:Hb.
    + unfold mkdir, path_exists. change OUTPUT_DIR with "book/images" in *.
      now rewrite Ed, Ef, Ebf.
    + assert (Hm : mkdir None "book" s = (Returned tt, with_dirs s (dirs s ++ ["book"])))
        by (unfold mkdir; rewrite Hb; reflexivity).
      rewrite Hm. unfold mkdir, path_exists, with_dirs. cbn [dirs files].
      change OUTPUT_DIR with "book/images" in *.
      rewrite mem_snoc, Ed, Ef, Ebf. reflexivity.
Qed.

Lemma ensure_output_dir_raised (s : state) (e : raised) (s' : state) :
  ensure_output_dir s = (Raised e, s') ->
  s' = s /\ e = not_a_directory
  /\ path_exists s OUTPUT_DIR = false /\ mem "book" (files s) = true.
Proof.
  destruct (ensure_output_dir_cases s) as [[_ E] | [(H1 & H2 & E) | (_ & _ & E)]];
    rewrite E; intros H; try discriminate.
  injection H as <- <-. auto.
Qed.

Lemma ensure_output_dir_returned (s : state) (a : unit) (s' : state) :
  ensure_output_dir s = (Returned a, s') -> path_exists s' OUTPUT_DIR = true.
Proof.
  destruct (ensure_output_dir_cases s) as [[H E] | [(_ & _ & E) | (H1 & H2 & E)]];
    rewrite E; intros H'; try discriminate; injection H' as _ <-; [exact H|].
  unfold path_exists, with_dirs, made_dirs. cbn [dirs files].
  apply orb_true_iff. left.
  destruct (path_exists s "book"); rewrite !mem_snoc; apply orb_true_r.
Qed.

(** The state in which [main] enters the [try], when it does. *)
Lemma main_unfold (lib : backend) (s0 : state) :
  path_exists (before_try s0) OUTPUT_DIR = true ->
  main lib s0 = try_except_Exception (plot_all lib) report (before_try s0).
Proof.
  unfold main, before_try, bind. cbn [print].
  match goal with |- context [ensure_output_dir ?st] => set (sp := st) end.
  destruct (ensure_output_dir sp) as [[[]|e] s1] eqn:E; cbn [snd]; [reflexivity|].
  destruct (ensure_output_dir_raised _ _ _ E) as (-> & _ & H & _).
  congruence.
Qed.

(** [main] leaves before the [try] exactly when [os.makedirs] raises. *)
Lemma main_blocked (lib : backend) (s0 : state) :
  path_exists (before_try s0) OUTPUT_DIR = false ->
  main lib s0 = (Raised not_a_directory, before_try s0)
  /\ before_try s0 = printed_line ("Generating figures in " ++ OUTPUT_DIR ++ "...") s0
  /\ path_exists s0 OUTPUT_DIR = false /\ mem "book" (files s0) = true.
Proof.
  unfold main, before_try, bind, printed_line. cbn [print snd].
  match goal with |- context [ensure_output_dir ?st] => set (sp := st) end.
  destruct (ensure_output_dir sp) as [[[]|e] s1] eqn:E; cbn [snd]; intros H.
  - apply ensure_output_dir_returned in E. congruence.
  - destruct (ensure_output_dir_raised _ _ _ E) as (-> & -> & H1 & H2). auto.
Qed.

Lemma before_try_saved (s0 : state) : saved (before_try s0) = saved s0.
Proof.
  unfold before_try, bind. cbn [print].
  match goal with |- context [ensure_output_dir ?st] => set (sp := st) end.
  destruct (ensure_output_dir_cases sp) as [[_ E] | [(_ & _ & E) | (_ & _ & E)]];
    rewrite E; reflexivity.
Qed.

Lemma plot_fails_entered lib s e s' remaining :
  plot_fails lib s e s' remaining -> path_exists s OUTPUT_DIR = true.
Proof. now intros [H | s1 H | s1 s2 H]. Qed.

Lemma plot_fails_plot_all lib s e s' remaining :
  plot_fails lib s e s' remaining -> plot_all lib s = (Raised e, s').
Proof.
  intros [_ H1 | s1 _ H1 H2 | s1 s2 _ H1 H2 H3]; unfold plot_all, bind.
  - now rewrite H1.
  - rewrite H1. unfold printed_line in H2. cbn [print snd] in *. now rewrite H2.
  - rewrite H1. unfold printed_line in H2, H3. cbn [print snd] in *.
    rewrite H2. now rewrite H3.
Qed.

(** C3.  When one of the three plotting calls raises an exception, [main]
    catches it and returns: the message and the hint to install matplotlib are
    printed, nothing else happens after the failing call, the figures of the
    later plotting calls are not saved, and the exit status is 0. *)
Theorem C3_plot_failure_is_reported
    (lib : backend) (s0 : state) (message : string) (s' : state)
    (remaining : list string) :
  plot_fails lib (before_try s0) (Exception message) s' remaining ->
  main lib s0 = (Returned tt, reported (Exception message) s')
  /\ exit_status (fst (main lib s0)) = 0
  /\ stdout (reported (Exception message) s')
     = (stdout s' ++ [ ("Error generating plots: " ++ message)%string;
                       "Ensure matplotlib is installed: pip install matplotlib" ])%list
  /\ saved (reported (Exception message) s') = saved s'
  /\ files (reported (Exception message) s') = files s'
  /\ calls (reported (Exception message) s') = calls s'
  /\ (forall fig, In fig remaining -> ~ In fig (saved s0) ->
                  ~ In fig (saved (reported (Exception message) s'))).
Proof.
  intros Hfail. set (e := Exception message) in *.
  assert (Hmain : main lib s0 = (Returned tt, reported e s')).
  { rewrite (main_unfold _ _ (plot_fails_entered _ _ _ _ _ Hfail)).
    unfold try_except_Exception.
    rewrite (plot_fails_plot_all _ _ _ _ _ Hfail). reflexivity. }
  split; [exact Hmain|]. split; [now rewrite Hmain|].
  split; [cbn; now rewrite <- app_assoc|].
  split; [reflexivity|]. split; [reflexivity|]. split; [reflexivity|].
  change (saved (reported e s')) with (saved s').
  intros fig Hfig Hnew Hin.
  destruct Hfail as [_ H1 | s1 _ H1 H2 | s1 s2 _ H1 H2 H3].
  - destruct (plot_neighbor_lookup_saved lib _ _ _ H1) as (l & E & Hl).
    rewrite E, before_try_saved in Hin.
    apply in_app_iff in Hin as [Hin | Hin]; [contradiction|].
    apply Hl in Hin. destruct Hin as [<-|[]].
    destruct Hfig as [E'|[E'|[]]]; vm_compute in E'; discriminate.
  - destruct (plot_neighbor_lookup_saved lib _ _ _ H1) as (l & E & Hl).
    destruct (plot_memory_usage_saved lib _ _ _ H2) as (l2 & E2 & Hl2).
    unfold printed_line in E2. cbn [print snd saved] in E2.
    rewrite E2, E, before_try_saved in Hin.
    destruct Hfig as [<-|[]].
    apply in_app_iff in Hin as [Hin | Hin];
      [apply in_app_iff in Hin as [Hin | Hin]; [contradiction|]|].
    + apply Hl in Hin. destruct Hin as [E'|[]]. vm_compute in E'. discriminate.
    + apply Hl2 in Hin. destruct Hin as [E'|[]]. vm_compute in E'. discriminate.
  - destruct Hfig.
Qed.

Lemma C3_plot_failure_is_reported_witness :
  exists s',
    plot_fails (fails_at 20 import_error) (before_try fresh) import_error s'
               [figure_path isotropy_png]
    /\ main (fails_at 20 import_error) fresh = (Returned tt, reported import_error s').
Proof.
  assert (Hf : plot_fails (fails_at 20 import_error) (before_try fresh) import_error
                 (snd (plot_all (fails_at 20 import_error) (before_try fresh)))
                 [figure_path isotropy_png]).
  { eapply fails_second; vm_compute; reflexivity. }
  exists (snd (plot_all (fails_at 20 import_error) (before_try fresh))).
  split; [exact Hf|].
  exact (proj1 (C3_plot_failure_is_reported
                  (fails_at 20 import_error) fresh _ _ _ Hf)).
Defined.

(** The guard is [except Exception]: a signal of the interpreter passes it. *)
Lemma signal_passes_the_guard :
  fst (main (fails_at 20 keyboard_interrupt) fresh) = Raised keyboard_interrupt.
Proof. vm_compute. reflexivity. Qed.

Lemma call_quiet (lib : backend) (c : plt_call) (s : state) :
  never_raises lib -> call lib c s = (Returned tt, effect c (count_call s)).
Proof. intros H. unfold call. now rewrite H. Qed.

Lemma before_try_cases (s0 : state) :
  let sp := printed_line ("Generating figures in " ++ OUTPUT_DIR ++ "...") s0 in
  (path_exists s0 OUTPUT_DIR = true /\ before_try s0 = sp)
  \/ (path_exists s0 OUTPUT_DIR = false /\ mem "book" (files s0) = true
      /\ before_try s0 = sp)
  \/ (path_exists s0 OUTPUT_DIR = false /\ mem "book" (files s0) = false
      /\ before_try s0 = with_dirs sp (made_dirs sp)).
Proof.
  intros sp. unfold before_try, bind. cbn [print].
  match goal with |- context [ensure_output_dir ?st] => change st with sp end.
  destruct (ensure_output_dir_cases sp) as [[H E] | [(H1 & H2 & E) | (H1 & H2 & E)]];
    rewrite E; cbn [snd].
  - left. split; [exact H | reflexivity].
  - right. left. split; [exact H1|]. split; [exact H2 | reflexivity].
  - right. right. split; [exact H1|]. split; [exact H2 | reflexivity].
Qed.

(** Without a plotting call that raises, the [try] saves the three figures. *)
Lemma plot_all_quiet (lib : backend) (s : state) :
  never_raises lib ->
  fst (plot_all lib s) = Returned tt
  /\ dirs (snd (plot_all lib s)) = dirs s
  /\ saved (snd (plot_all lib s))
     = (saved s ++ [ figure_path neighbor_lookup_png;
                     figure_path memory_efficiency_png;
                     figure_path isotropy_png ])%list
  /\ files (snd (plot_all lib s))
     = fold_left add_path
         [ figure_path neighbor_lookup_png; figure_path memory_efficiency_png;
           figure_path isotropy_png ] (files s)
  /\ stdout (snd (plot_all lib s))
     = (stdout s ++ [ "Generated benchmark_neighbor_lookup.png";
                      "Generated benchmark_memory_efficiency.png";
                      "Generated benchmark_isotropy.png" ])%list.
Proof.
  intros Hquiet.
  unfold plot_all, plot_neighbor_lookup, plot_memory_usage, plot_isotropy.
  cbv zeta. cbn [label_bars]. unfold bind, ret, print.
  repeat (rewrite (call_quiet lib _ _ Hquiet); cbv beta iota).
  cbn [fst snd saved files stdout dirs effect count_call].
  rewrite <- !app_assoc. repeat split; reflexivity.
Qed.

(** C8, as written, fails when a file named book stands in the way:
    [os.makedirs] raises before the [try], nothing is created and no figure is
    saved, though no plotting call raises. *)
Lemma C8_file_named_book_counterexample :
  path_exists state_with_file_book OUTPUT_DIR = false
  /\ never_raises quiet
  /\ main quiet state_with_file_book
     = (Raised (Exception "[Errno 20] Not a directory: 'book/images'"),
        printed_line "Generating figures in book/images..." state_with_file_book)
  /\ ~ In OUTPUT_DIR (dirs (snd (main quiet state_with_file_book)))
  /\ saved (snd (main quiet state_with_file_book)) = [].
Proof.
  split; [reflexivity|]. split; [intros n c; reflexivity|].
  split; [vm_compute; reflexivity|]. split; [|vm_compute; reflexivity].
  vm_compute. tauto.
Qed.

(** C8, amended.  When book/images does not exist and no file named book is
    in the way, [main] creates it (and book, if missing); when a file named
    book is in the way, [os.makedirs] raises and [main] ends before any
    plotting call; when the path exists the directories are left alone.  A run
    that gets past the directory step and in which no call into matplotlib
    raises returns with exactly the three files benchmark_neighbor_lookup.png,
    benchmark_memory_efficiency.png and benchmark_isotropy.png saved, all in
    book/images. *)
Theorem C8_three_figures (lib : backend) (s0 : state) :
  (path_exists s0 OUTPUT_DIR = false -> mem "book" (files s0) = false ->
   In OUTPUT_DIR (dirs (snd (main lib s0)))
   /\ forall d, In d (dirs (snd (main lib s0)))
                <-> In d (dirs s0) \/ d = "book" \/ d = OUTPUT_DIR)
  /\ (path_exists s0 OUTPUT_DIR = false -> mem "book" (files s0) = true ->
      main lib s0
      = (Raised (Exception "[Errno 20] Not a directory: 'book/images'"),
         printed_line "Generating figures in book/images..." s0))
  /\ (path_exists s0 OUTPUT_DIR = true -> dirs (snd (main lib s0)) = dirs s0)
  /\ (never_raises lib ->
      path_exists s0 OUTPUT_DIR = true \/ mem "book" (files s0) = false ->
      fst (main lib s0) = Returned tt
      /\ saved (snd (main lib s0))
         = (saved s0 ++ [ (OUTPUT_DIR ++ "/" ++ neighbor_lookup_png)%string;
                          (OUTPUT_DIR ++ "/" ++ memory_efficiency_png)%string;
                          (OUTPUT_DIR ++ "/" ++ isotropy_png)%string ])%list
      /\ files (snd (main lib s0))
         = fold_left add_path
             [ OUTPUT_DIR ++ "/" ++ neighbor_lookup_png;
               OUTPUT_DIR ++ "/" ++ memory_efficiency_png;
               OUTPUT_DIR ++ "/" ++ isotropy_png ] (files s0)
      /\ stdout (snd (main lib s0))
         = (stdout s0 ++ [ "Generating figures in book/images...";
                           "Generated benchmark_neighbor_lookup.png";
                           "Generated benchmark_memory_efficiency.png";
                           "Generated benchmark_isotropy.png" ])%list)
  /\ [ neighbor_lookup_png; memory_efficiency_png; isotropy_png ]
     = [ "benchmark_neighbor_lookup.png"; "benchmark_memory_efficiency.png";
         "benchmark_isotropy.png" ]
  /\ NoDup [ neighbor_lookup_png; memory_efficiency_png; isotropy_png ].
Proof.
  set (sp := printed_line ("Generating figures in " ++ OUTPUT_DIR ++ "...") s0).
  assert (Hentered : path_exists (before_try s0) OUTPUT_DIR = true ->
                     dirs (snd (main lib s0)) = dirs (before_try s0)).
  { intros He. rewrite (main_unfold _ _ He).
    destruct (try_except_Exception (plot_all lib) report (before_try s0)) as [o s1] eqn:E.
    apply (respects_try _ same_dirs_trans) in E; [exact E | apply plot_all_same_dirs|].
    intros e. unfold report. keep_dirs. }
  assert (Hmade : path_exists s0 OUTPUT_DIR = false -> mem "book" (files s0) = false ->
                  path_exists (before_try s0) OUTPUT_DIR = true
                  /\ before_try s0 = with_dirs sp (made_dirs sp)).
  { intros H1 H2.
    destruct (before_try_cases s0) as [[H _] | [(_ & H & _) | (_ & _ & E)]];
      try congruence.
    fold sp in E. split; [|exact E]. rewrite E.
    unfold path_exists, with_dirs, made_dirs. cbn [dirs files].
    apply orb_true_iff. left.
    destruct (path_exists sp "book"); rewrite !mem_snoc; apply orb_true_r. }
  assert (Hkept : path_exists s0 OUTPUT_DIR = true ->
                  path_exists (before_try s0) OUTPUT_DIR = true
                  /\ before_try s0 = sp).
  { intros H1.
    destruct (before_try_cases s0) as [[_ E] | [(H & _) | (H & _)]];
      try congruence.
    fold sp in E. split; [|exact E]. now rewrite E. }
  split; [|split; [|split; [|split; [|split]]]].
  - intros Hmissing Hfree. destruct (Hmade Hmissing Hfree) as [He Eb].
    rewrite (Hentered He), Eb. unfold with_dirs, made_dirs. cbn [dirs].
    assert (Hbook : path_exists sp "book" = mem "book" (dirs s0)).
    { unfold path_exists, sp, printed_line. cbn [print snd dirs files].
      now rewrite Hfree, orb_false_r. }
    rewrite Hbook. unfold sp, printed_line. cbn [print snd dirs].
    destruct (mem "book" (dirs s0)) eqn:Eb'.
    + apply mem_In in Eb'. split.
      * apply in_or_app. right. now left.
      * intros d. rewrite in_app_iff. cbn [In]. split.
        -- intros [H | [<- | []]]; auto.
        -- intros [H | [-> | ->]]; auto.
    + split.
      * apply in_or_app. right. now left.
      * intros d. rewrite !in_app_iff. cbn [In]. split.
        -- intros [[H | [<- | []]] | [<- | []]]; auto.
        -- intros [H | [-> | ->]]; auto.
  - intros Hmissing Hfile.
    assert (Hb : path_exists (before_try s0) OUTPUT_DIR = false).
    { destruct (before_try_cases s0) as [[H _] | [(_ & _ & E) | (_ & H & _)]];
        try congruence.
      rewrite E. exact Hmissing. }
    destruct (main_blocked lib s0 Hb) as (-> & -> & _). reflexivity.
  - intros Hexists. destruct (Hkept Hexists) as [He Eb].
    now rewrite (Hentered He), Eb.
  - intros Hquiet Hok.
    assert (Hst : path_exists (before_try s0) OUTPUT_DIR = true
                  /\ saved (before_try s0) = saved s0
                  /\ files (before_try s0) = files s0
                  /\ stdout (before_try s0)
                     = (stdout s0 ++ ["Generating figures in book/images..."])%list).
    { destruct (path_exists s0 OUTPUT_DIR) eqn:Hex.
      - destruct (Hkept eq_refl) as [He Eb]. rewrite Eb in He |- *.
        repeat split; try reflexivity; exact He.
      - destruct Hok as [Hok | Hok]; [discriminate|].
        destruct (Hmade eq_refl Hok) as [He Eb]. rewrite Eb in He |- *.
        repeat split; try reflexivity; exact He. }
    destruct Hst as (He & Hsv & Hfl & Hout).
    rewrite (main_unfold _ _ He). unfold try_except_Exception.
    destruct (plot_all_quiet lib (before_try s0) Hquiet) as (Hr & _ & Hs & Hf & Ho).
    destruct (plot_all lib (before_try s0)) as [o s1]. cbn [fst snd] in *.
    subst o. cbn [fst snd]. rewrite Hs, Hf, Ho, Hsv, Hfl, Hout, <- app_assoc.
    repeat split; reflexivity.
  - reflexivity.
  - repeat constructor; simpl; intuition discriminate.
Qed.

Lemma C8_three_figures_witness :
  path_exists fresh OUTPUT_DIR = false
  /\ mem "book" (files fresh) = false
  /\ never_raises quiet
  /\ In OUTPUT_DIR (dirs (snd (main quiet fresh)))
  /\ saved (snd (main quiet fresh))
     = [ OUTPUT_DIR ++ "/" ++ neighbor_lookup_png;
         OUTPUT_DIR ++ "/" ++ memory_efficiency_png;
         OUTPUT_DIR ++ "/" ++ isotropy_png ].
Proof.
  assert (H1 : path_exists fresh OUTPUT_DIR = false) by reflexivity.
  assert (H2 : mem "book" (files fresh) = false) by reflexivity.
  assert (H3 : never_raises quiet) by (intros n c; reflexivity).
  split; [exact H1|]. split; [exact H2|]. split; [exact H3|]. split.
  - exact (proj1 (proj1 (C8_three_figures quiet fresh) H1 H2)).
  - exact (proj1 (proj2 (proj1 (proj2 (proj2 (proj2 (C8_three_figures quiet fresh))))
                           H3 (or_intror H2)))).
Defined.

End FigureClaims.

(** * Further properties of the index generator *)

Module IndexExtras.
Import Re ReFacts BookIndex HitFacts ScanFacts Order Dedup Page Titles IndexClaims
       Exclusions.

(** X1.  Whatever characters a term holds, the pattern the scan builds for it
    is well formed and stands for a word boundary, the characters of the term
    taken literally, and a word boundary: [re.escape] followed by the parser
    gives the term back. *)
Theorem X1_term_pattern_is_literal (term content : string) :
  parse (escape term) = Some (literals term)
  /\ parse (term_pattern term)
     = Some (Boundary :: literals term ++ [Boundary])%list
  /\ search_ignorecase (term_pattern term) content = Some (term_hit term content).
Proof.
  split; [apply parse_escape|]. split; [apply term_pattern_parses|].
  unfold term_hit, search_ignorecase. now rewrite term_pattern_parses.
Qed.

Lemma values_nonempty_append idx k v :
  values_nonempty idx -> values_nonempty (dict_append idx k v).
Proof.
  unfold values_nonempty. induction 1 as [|[k0 vs] idx Hv Hall IH]; simpl.
  - constructor; [discriminate | constructor].
  - destruct (String.eqb k0 k); constructor; auto.
    simpl. destruct vs; discriminate.
Qed.

Lemma values_nonempty_fold {A} (f : index -> A -> index) (l : list A) :
  (forall idx a, values_nonempty idx -> values_nonempty (f idx a)) ->
  forall idx, values_nonempty idx -> values_nonempty (fold_left f l idx).
Proof.
  intros Hf. induction l as [|a l IH]; intros idx H; simpl; [assumption|].
  apply IH, Hf, H.
Qed.

Lemma scan_files_values_nonempty (book : tree) : values_nonempty (scan_files book).
Proof.
  unfold scan_files. apply values_nonempty_fold; [|constructor].
  intros idx [root files] H. unfold scan_dir. cbn [fst snd].
  apply values_nonempty_fold; [|exact H].
  intros idx' [file content] H'. unfold scan_file.
  destruct (is_scanned_name file); [|exact H'].
  unfold scan_terms. apply values_nonempty_fold; [|exact H'].
  intros idx'' term H''.
  destruct (term_hit term content); [now apply values_nonempty_append | exact H''].
Qed.

Lemma key_has_links (idx : index) (k : string) :
  values_nonempty idx -> In k (keys idx) -> dict_get idx k <> [].
Proof.
  unfold values_nonempty. induction 1 as [|[k0 vs] idx Hv Hall IH]; simpl;
    [intros []|].
  intros Hin. destruct (String.eqb_spec k0 k) as [->|Hne]; [exact Hv|].
  destruct Hin as [E|Hin]; [contradiction | now apply IH].
Qed.

Lemma key_iff_some_file_hits (book : tree) (term : string) :
  (In term (keys (scan_files book)) <->
   In term EXPLICIT_TERMS
   /\ exists f, In f (scanned book) /\ term_hit term (sf_content f) = true)
  /\ (In term (keys (scan_files book)) <-> dict_get (scan_files book) term <> []).
Proof.
  assert (Hk : In term (keys (scan_files book)) <-> dict_get (scan_files book) term <> []).
  { split; [apply key_has_links, scan_files_values_nonempty | apply dict_get_key]. }
  split; [|exact Hk]. rewrite Hk. split.
  - intros Hne.
    assert (Hv : In term EXPLICIT_TERMS).
    { apply (proj2 (scan_files_keys_ok book)), dict_get_key, Hne. }
    split; [exact Hv|]. rewrite (scan_files_get _ _ Hv) in Hne.
    unfold hit_links in Hne.
    destruct (filter (fun f => term_hit term (sf_content f)) (scanned book))
      as [|f l] eqn:E; [now contradiction Hne|].
    assert (Hf : In f (filter (fun f => term_hit term (sf_content f)) (scanned book)))
      by (rewrite E; now left).
    apply filter_In in Hf. now exists f.
  - intros (Hv & f & Hf & Hh). rewrite (scan_files_get _ _ Hv). unfold hit_links.
    assert (Hin : In f (filter (fun f => term_hit term (sf_content f)) (scanned book)))
      by (apply filter_In; auto).
    destruct (filter _ (scanned book)); [destruct Hin | discriminate].
Qed.

(** X2.  A term is a key of the index exactly when it belongs to the vocabulary
    and the text of some scanned file passes its test; a key always has at
    least one link. *)
Theorem X2_key_iff_some_file_hits (book : tree) (term : string) :
  (In term (keys (scan_files book)) <->
   In term EXPLICIT_TERMS
   /\ exists f, In f (scanned book) /\ term_hit term (sf_content f) = true)
  /\ (In term (keys (scan_files book)) <-> dict_get (scan_files book) term <> []).
Proof. apply key_iff_some_file_hits. Qed.

(** X3.  The index never has more keys than the vocabulary has terms (57), and
    its keys are distinct terms of the vocabulary.  When [main] returns, the
    lines it has printed give the number of keys, and the one file it has
    written is the index file with the page generated from the index. *)
Theorem X3_term_count (book : tree) :
  List.length (scan_files book) <= 57
  /\ NoDup (keys (scan_files book))
  /\ incl (keys (scan_files book)) EXPLICIT_TERMS
  /\ (forall r,
        main book = Some r ->
        printed r
        = [ "Scanning book content in book...";
            "Found " ++ str_of_nat (List.length (scan_files book)) ++ " terms.";
            "Index generated at book/back_matter/index.md" ]
        /\ exists page,
             generate_index_md (scan_files book) = Some page
             /\ written r = [("book/back_matter/index.md", page)]).
Proof.
  destruct (scan_files_keys_ok book) as [Hnd Hin].
  split; [|split; [exact Hnd|split; [exact Hin|]]].
  - change 57 with (List.length EXPLICIT_TERMS).
    rewrite <- (length_map fst). now apply NoDup_incl_length.
  - intros r Hr. destruct (main_returned book r Hr) as (page & Hpage & _ & ->).
    split; [reflexivity|]. now exists page.
Qed.

Lemma X3_term_count_witness :
  exists r,
    main same_title_book = Some r
    /\ printed r
       = [ "Scanning book content in book..."; "Found 1 terms.";
           "Index generated at book/back_matter/index.md" ].
Proof.
  assert (Hr : main same_title_book
               = Some {| printed :=
                           [ "Scanning book content in book..."; "Found 1 terms.";
                             "Index generated at book/back_matter/index.md" ];
                         written :=
                           [("book/back_matter/index.md",
                             "# Index" ++ nl ++ nl ++ nl ++ "## O" ++ nl ++ nl
                             ++ "- **Octree**: [Intro](../part1/b.md)" ++ nl)] |})
    by (vm_compute; reflexivity).
  eexists. split; [exact Hr|].
  exact (proj1 (proj2 (proj2 (proj2 (X3_term_count same_title_book))) _ Hr)).
Defined.

(** X4.  When no scanned file passes the test of any term, the index is empty
    and the generated page is the bare title.  If [main] returns, it has
    reported 0 terms and written that page; it returns when the index file can
    be written and raises otherwise (a file named back_matter in the book, or
    a directory named index.md in back_matter). *)
Theorem X4_no_hit_gives_bare_page (book : tree) :
  (forall f term, In f (scanned book) -> In term EXPLICIT_TERMS ->
                  term_hit term (sf_content f) = false) ->
  scan_files book = []
  /\ generate_index_md (scan_files book) = Some ("# Index" ++ nl ++ nl)
  /\ (forall r,
        main book = Some r ->
        written r = [("book/back_matter/index.md", "# Index" ++ nl ++ nl)]
        /\ nth 1 (printed r) "" = "Found 0 terms.")
  /\ (index_file_writable book = true -> main book <> None)
  /\ (index_file_writable book = false -> main book = None).
Proof.
  intros Hno.
  assert (He : scan_files book = []).
  { destruct (scan_files book) as [|[k vs] idx] eqn:E; [reflexivity|]. exfalso.
    assert (Hk : In k (keys (scan_files book))) by (rewrite E; now left).
    apply (proj1 (key_iff_some_file_hits book k)) in Hk
      as (Hv & f & Hf & Hh).
    rewrite (Hno f k Hf Hv) in Hh. discriminate. }
  split; [exact He|]. split; [now rewrite He|]. split; [|split].
  - intros r Hr. destruct (main_returned book r Hr) as (page & Hpage & _ & ->).
    rewrite He in Hpage |- *. injection Hpage as <-. split; reflexivity.
  - intros Hw. unfold main. rewrite He, Hw. discriminate.
  - intros Hw. unfold main. rewrite He, Hw. reflexivity.
Qed.

Lemma X4_no_hit_gives_bare_page_witness :
  scan_files book_without_terms = []
  /\ option_map written (main book_without_terms)
     = Some [("book/back_matter/index.md", "# Index" ++ nl ++ nl)]
  /\ main book_with_file_back_matter = None.
Proof.
  assert (H1 : forall f term, In f (scanned book_without_terms) ->
                              In term EXPLICIT_TERMS ->
                              term_hit term (sf_content f) = false).
  { intros f term [<-|[]] Hin.
    assert (H : forallb (fun t => negb (term_hit t ("# Welcome" ++ nl ++ "Nothing to see." ++ nl)))
                        EXPLICIT_TERMS = true) by (vm_compute; reflexivity).
    rewrite forallb_forall in H. apply negb_true_iff. now apply H. }
  assert (H2 : forall f term, In f (scanned book_with_file_back_matter) ->
                              In term EXPLICIT_TERMS ->
                              term_hit term (sf_content f) = false)
    by (intros f term []).
  split; [exact (proj1 (X4_no_hit_gives_bare_page book_without_terms H1))|].
  split; [vm_compute; reflexivity|].
  exact (proj2 (proj2 (proj2 (proj2 (X4_no_hit_gives_bare_page
                                       book_with_file_back_matter H2)))) eq_refl).
Defined.

Lemma index_loop_empty_term (idx : index) (terms : list string) :
  In "" terms -> forall cur md, index_loop idx terms cur md = None.
Proof.
  induction terms as [|t rest IH]; intros Hin cur md; [destruct Hin|].
  destruct t as [|c t]; [reflexivity|].
  destruct Hin as [E|Hin]; [discriminate|].
  cbn [index_loop]. cbv zeta. now apply IH.
Qed.

Lemma index_loop_returns (idx : index) (terms : list string) :
  ~ In "" terms -> forall cur md, index_loop idx terms cur md <> None.
Proof.
  induction terms as [|t rest IH]; intros Hno cur md; [discriminate|].
  destruct t as [|c t]; [exfalso; apply Hno; now left|].
  cbn [index_loop]. cbv zeta. apply IH. intros H. apply Hno. now right.
Qed.

(** X5.  [generate_index_md] fails (the [IndexError] of [term[0]]) exactly when
    the index has the empty string among its keys; on an index that
    [scan_files] built it never fails. *)
Theorem X5_generate_fails_iff_empty_key (idx : index) :
  (generate_index_md idx = None <-> In "" (keys idx))
  /\ (forall book, generate_index_md (scan_files book) <> None).
Proof.
  split.
  - split.
    + intros Hnone. destruct (in_dec string_dec "" (keys idx)) as [H|H]; [exact H|].
      exfalso. revert Hnone. unfold generate_index_md. apply index_loop_returns.
      intros Hin. apply H. now apply sorted_keys_in.
    + intros Hin. unfold generate_index_md. apply index_loop_empty_term.
      now apply sorted_keys_in.
  - intros book. rewrite (generate_index_md_document _ (scan_files_keys_ok book)).
    discriminate.
Qed.

Lemma X5_generate_fails_iff_empty_key_witness :
  In "" (keys index_with_empty_key)
  /\ generate_index_md index_with_empty_key = None.
Proof.
  assert (H : In "" (keys index_with_empty_key)) by (right; left; reflexivity).
  split; [exact H|].
  exact (proj2 (proj1 (X5_generate_fails_iff_empty_key index_with_empty_key)) H).
Defined.

Lemma prune_node (dirs : list (string * tree)) (files : list (string * string)) :
  prune (Node dirs files)
  = Node (flat_map (fun e => if mem (fst e) IGNORE_DIRS then []
                             else [(fst e, prune (snd e))]) dirs)
         (filter (fun entry => is_scanned_name (fst entry)) files).
Proof.
  cbn [prune]. f_equal.
  induction dirs as [|[d sub] rest IH]; [reflexivity|].
  cbn [flat_map fst snd]. rewrite <- IH.
  destruct (mem d IGNORE_DIRS); reflexivity.
Qed.

Lemma walk_node (top : string) (dirs : list (string * tree))
    (files : list (string * string)) :
  walk top (Node dirs files)
  = (top, files)
    :: flat_map (fun e => if mem (fst e) IGNORE_DIRS then []
                          else walk (path_join top (fst e)) (snd e)) dirs.
Proof.
  cbn [walk]. f_equal.
  induction dirs as [|[d sub] rest IH]; [reflexivity|].
  cbn [flat_map fst snd]. now rewrite <- IH.
Qed.

Lemma walk_prune (t : tree) :
  forall top, walk top (prune t) = map scanned_only (walk top t).
Proof.
  induction t as [dirs files IH] using tree_induction. intros top.
  rewrite prune_node, !walk_node. cbn [map]. f_equal.
  induction dirs as [|[d sub] rest IHrest]; [reflexivity|].
  inversion IH as [|? ? Hsub Hrest]; subst. cbn [snd] in Hsub.
  cbn [flat_map fst snd]. rewrite map_app, <- (IHrest Hrest).
  destruct (mem d IGNORE_DIRS) eqn:E; [reflexivity|].
  cbn [flat_map fst snd app]. rewrite E, Hsub. reflexivity.
Qed.

Lemma scan_dir_scanned_only (visit : string * list (string * string)) (idx : index) :
  scan_dir idx (scanned_only visit) = scan_dir idx visit.
Proof.
  destruct visit as [root files]. unfold scan_dir, scanned_only. cbn [fst snd].
  revert idx. induction files as [|[file content] files IH]; intros idx;
    [reflexivity|].
  cbn [filter fold_left fst].
  destruct (is_scanned_name file) eqn:E.
  - cbn [fold_left]. apply IH.
  - rewrite IH. unfold scan_file. now rewrite E.
Qed.

Lemma scan_files_prune (book : tree) : scan_files (prune book) = scan_files book.
Proof.
  unfold scan_files. rewrite walk_prune.
  generalize (walk BOOK_DIR book). generalize (@nil (string * list link)).
  intros idx visits. revert idx.
  induction visits as [|v visits IH]; intros idx; [reflexivity|].
  cbn [map fold_left]. now rewrite scan_dir_scanned_only.
Qed.

(** X7.  The index and the generated page depend only on what the scan reads:
    removing every ignored directory, at any depth, and every file whose name
    the loop skips changes neither, and neither does replacing what lies below
    an ignored directory; two such runs of [main] that both return have
    printed and written the same.  (Whether the index file can be written
    does depend on back_matter.) *)
Theorem X7_ignored_content_is_irrelevant :
  (forall book,
      scan_files (prune book) = scan_files book
      /\ generate_index_md (scan_files (prune book))
         = generate_index_md (scan_files book)
      /\ (forall r r', main (prune book) = Some r -> main book = Some r' -> r = r'))
  /\ (forall d sub sub' before after files,
        In d IGNORE_DIRS ->
        let book := Node (before ++ (d, sub) :: after) files in
        let book' := Node (before ++ (d, sub') :: after) files in
        scan_files book = scan_files book'
        /\ generate_index_md (scan_files book) = generate_index_md (scan_files book')
        /\ (forall r r', main book = Some r -> main book' = Some r' -> r = r')).
Proof.
  assert (Hsame : forall b b', scan_files b = scan_files b' ->
                    forall r r', main b = Some r -> main b' = Some r' -> r = r').
  { intros b b' E r r' Hr Hr'.
    destruct (main_returned b r Hr) as (page & Hpage & _ & ->).
    destruct (main_returned b' r' Hr') as (page' & Hpage' & _ & ->).
    rewrite E in Hpage. rewrite E. congruence. }
  split.
  - intros book. pose proof (scan_files_prune book) as E.
    split; [exact E|]. split; [now rewrite E | now apply Hsame].
  - intros d sub sub' before after files Hin book book'. apply mem_In in Hin.
    assert (E : scan_files book = scan_files book').
    { rewrite <- (scan_files_prune book), <- (scan_files_prune book').
      unfold book, book'.
      rewrite !prune_node, !flat_map_app. cbn [flat_map fst snd].
      now rewrite Hin. }
    split; [exact E|]. split; [now rewrite E | now apply Hsame].
Qed.

Lemma X7_ignored_content_is_irrelevant_witness :
  In "back_matter" IGNORE_DIRS
  /\ scan_files (Node ([] ++ ("back_matter", Node [] [("index.md", "Octree")]) :: []) [])
     = scan_files (Node ([] ++ ("back_matter", Node [] []) :: []) []).
Proof.
  assert (H : In "back_matter" IGNORE_DIRS) by (right; left; reflexivity).
  split; [exact H|].
  exact (proj1 (proj2 X7_ignored_content_is_irrelevant "back_matter"
                  (Node [] [("index.md", "Octree")]) (Node [] []) [] [] [] H)).
Defined.

Lemma walk_visits_located (book : tree) (ds : list string) (file content : string) :
  located book ds file content ->
  Forall (fun d => mem d IGNORE_DIRS = false) ds ->
  forall top, exists files,
    In (dir_path top ds, files) (walk top book) /\ In (file, content) files.
Proof.
  induction 1 as [dirs files file content Hin
                 | dirs files d sub ds file content Hin Hl IH];
    intros Hall top.
  - exists files. split; [|exact Hin]. apply walk_In. now left.
  - inversion Hall as [|? ? Hd Hds]; subst.
    destruct (IH Hds (path_join top d)) as (files' & Hw & Hf).
    exists files'. split; [|exact Hf].
    apply walk_In. right. exists d, sub. auto.
Qed.

(** X8.  Every file of the book that [os.walk] reaches (through directories,
    not through a symbolic link), that lies below no ignored directory, bears
    no ignored name and ends in ".md" is read by the scan, with the title
    [get_title] gives it; for every term of the vocabulary that its text
    passes the test of, its link is recorded under the term, and the generated
    page holds the line of the term with a link of that title. *)
Theorem X8_every_chapter_is_scanned
    (book : tree) (ds : list string) (file content : string) :
  located book ds file content ->
  ~ excluded ds file ->
  let f := scanned_entry (dir_path BOOK_DIR ds) (file, content) in
  In f (scanned book)
  /\ sf_path f = file_path ds file
  /\ sf_title f = get_title (file_path ds file) content
  /\ sf_link f = relpath (file_path ds file) BOOK_DIR
  /\ (forall term,
        In term EXPLICIT_TERMS -> term_hit term content = true ->
        In (link_of f) (dict_get (scan_files book) term)
        /\ exists page before after links,
             generate_index_md (scan_files book) = Some page
             /\ page = before
                       ++ ("- **" ++ term ++ "**: "
                           ++ join ", "
                                (map (fun l => "[" ++ fst l ++ "](../" ++ snd l ++ ")")
                                     links)
                           ++ nl)
                       ++ after
             /\ In (sf_title f) (map fst links)).
Proof.
  intros Hloc Hnot f.
  assert (Hdirs : Forall (fun d => mem d IGNORE_DIRS = false) ds).
  { apply Forall_forall. intros d Hd.
    destruct (mem d IGNORE_DIRS) eqn:E; [|reflexivity].
    exfalso. apply Hnot. left. exists d. split; [exact Hd | now apply mem_In]. }
  assert (Hname : is_scanned_name file = true).
  { unfold is_scanned_name. apply negb_true_iff, orb_false_iff. split.
    - apply negb_false_iff. destruct (endswith file ".md") eqn:E; [reflexivity|].
      exfalso. apply Hnot. right. now right.
    - destruct (mem file IGNORE_FILES) eqn:E; [|reflexivity].
      exfalso. apply Hnot. right. left. now apply mem_In. }
  assert (Hin : In f (scanned book)).
  { destruct (walk_visits_located _ _ _ _ Hloc Hdirs BOOK_DIR) as (files & Hw & Hf).
    unfold scanned. apply in_flat_map. exists (dir_path BOOK_DIR ds, files).
    split; [exact Hw|]. unfold scanned_in_dir. cbn [fst snd].
    apply in_map. apply filter_In. split; [exact Hf | exact Hname]. }
  split; [exact Hin|]. split; [reflexivity|]. split; [reflexivity|].
  split; [reflexivity|].
  intros term Hv Hh.
  assert (Hrec : In (link_of f) (dict_get (scan_files book) term)).
  { rewrite (scan_files_get _ _ Hv). unfold hit_links. apply in_map.
    apply filter_In. split; [exact Hin | exact Hh]. }
  split; [exact Hrec|].
  assert (Hk : In term (keys (scan_files book))).
  { apply dict_get_key. intros E. rewrite E in Hrec. destruct Hrec. }
  destruct (page_has_line _ term (scan_files_keys_ok book) Hk)
    as (before & after & Hpage & _).
  exists (before ++ term_line term (unique_links (dict_get (scan_files book) term))
                 ++ after),
         before, after, (unique_links (dict_get (scan_files book) term)).
  split; [exact Hpage|]. split; [reflexivity|].
  apply (in_map fst) in Hrec. cbn [link_of fst] in Hrec.
  destruct (last_path_exists _ _ Hrec) as [p Hp].
  apply unique_links_In in Hp. now apply (in_map fst) in Hp.
Qed.

Lemma X8_every_chapter_is_scanned_witness :
  located book_with_exclusions ["part1"] "ch1.md" ("# One" ++ nl ++ "Octree" ++ nl)
  /\ ~ excluded ["part1"] "ch1.md"
  /\ In (scanned_entry (dir_path BOOK_DIR ["part1"])
           ("ch1.md", "# One" ++ nl ++ "Octree" ++ nl))
        (scanned book_with_exclusions).
Proof.
  assert (Hl : located book_with_exclusions ["part1"] "ch1.md"
                       ("# One" ++ nl ++ "Octree" ++ nl)).
  { unfold book_with_exclusions.
    eapply located_below; [right; left; reflexivity|].
    apply located_here. right. right. left. reflexivity. }
  assert (He : ~ excluded ["part1"] "ch1.md").
  { intros [(d & [<-|[]] & Hd) | [H | H]].
    - apply mem_In in Hd. vm_compute in Hd. discriminate.
    - apply mem_In in H. vm_compute in H. discriminate.
    - vm_compute in H. discriminate. }
  split; [exact Hl|]. split; [exact He|].
  exact (proj1 (X8_every_chapter_is_scanned _ _ _ _ Hl He)).
Defined.

Lemma join_slashed (n : string) (ns : list string) :
  join "/" (n :: ns) = n ++ slashed ns.
Proof.
  revert n. induction ns as [|m ns IH]; intros n.
  - cbn [join slashed]. now rewrite append_empty_r.
  - change (join "/" (n :: m :: ns)) with (n ++ "/" ++ join "/" (m :: ns)).
    now rewrite IH.
Qed.

(** X9.  For entry names that are not empty and hold no slash, the link path
    of a file is its directories and its name joined by slashes, and two files
    at different places of the book never get the same link path. *)
Theorem X9_link_paths_tell_files_apart
    (ds ds' : list string) (file file' : string) :
  Forall (fun d => name_ok d = true) ds -> name_ok file = true ->
  Forall (fun d => name_ok d = true) ds' -> name_ok file' = true ->
  relpath (file_path ds file) BOOK_DIR = join "/" (ds ++ [file])
  /\ file_path ds file = "book/" ++ join "/" (ds ++ [file])
  /\ (relpath (file_path ds file) BOOK_DIR = relpath (file_path ds' file') BOOK_DIR ->
      ds = ds' /\ file = file').
Proof.
  intros Hds Hf Hds' Hf'.
  assert (Hform : file_path ds file = "book/" ++ join "/" (ds ++ [file])
                  /\ relpath (file_path ds file) BOOK_DIR = join "/" (ds ++ [file])).
  { rewrite (file_path_slashed _ _ Hds Hf).
    destruct (ds ++ [file])%list as [|n ns] eqn:E; [now destruct ds|].
    rewrite relpath_slashed, join_slashed. split; reflexivity. }
  split; [apply Hform|]. split; [apply Hform|].
  now apply link_path_inj.
Qed.

Lemma X9_link_paths_tell_files_apart_witness :
  relpath (file_path ["part1"; "deep"] "ch1.md") BOOK_DIR
  = join "/" (["part1"; "deep"] ++ ["ch1.md"]).
Proof.
  refine (proj1 (X9_link_paths_tell_files_apart
                   ["part1"; "deep"] [] "ch1.md" "a.md" _ _ _ _)).
  - repeat constructor.
  - reflexivity.
  - constructor.
  - reflexivity.
Defined.

Lemma dict_set_new (d : list link) (k v : string) :
  ~ In k (map fst d) -> dict_set d k v = (d ++ [(k, v)])%list.
Proof.
  induction d as [|[k0 v0] d IH]; intros Hno; [reflexivity|].
  cbn [dict_set]. destruct (String.eqb_spec k0 k) as [->|Hne].
  - exfalso. apply Hno. now left.
  - cbn [app]. rewrite IH; [reflexivity|]. intros H. apply Hno. now right.
Qed.

Lemma fold_set_distinct (links : list link) :
  forall d,
    NoDup (map fst (d ++ links)) ->
    fold_left set_link links d = (d ++ links)%list.
Proof.
  induction links as [|[t p] links IH]; intros d Hnd; cbn [fold_left].
  - now rewrite app_nil_r.
  - unfold set_link at 2. cbn [fst snd].
    rewrite dict_set_new.
    + rewrite IH; rewrite <- app_assoc; [reflexivity | exact Hnd].
    + rewrite map_app in Hnd. apply NoDup_remove_2 in Hnd.
      intros H. apply Hnd. apply in_or_app. now left.
Qed.

Lemma dict_set_length (d : list link) (k v : string) :
  List.length (dict_set d k v) <= S (List.length d).
Proof.
  induction d as [|[k0 v0] d IH]; cbn [dict_set]; [simpl; lia|].
  destruct (String.eqb k0 k); simpl in *; lia.
Qed.

(** X10.  Deduplication changes nothing when the titles recorded for a term are
    pairwise distinct: every link is rendered, in the order of the scan.  It
    never renders more links than were recorded. *)
Theorem X10_distinct_titles_keep_all_links (links : list link) :
  (NoDup (map fst links) -> unique_links links = links)
  /\ List.length (unique_links links) <= List.length links.
Proof.
  split.
  - intros Hnd. rewrite unique_links_fold. now apply fold_set_distinct.
  - rewrite unique_links_fold.
    assert (H : forall d, List.length (fold_left set_link links d)
                          <= List.length d + List.length links).
    { induction links as [|tp links IH]; intros d; cbn [fold_left]; [simpl; lia|].
      specialize (IH (set_link d tp)).
      pose proof (dict_set_length d (fst tp) (snd tp)) as Hl.
      unfold set_link in *. simpl. lia. }
    apply (H []).
Qed.

Lemma X10_distinct_titles_keep_all_links_witness :
  unique_links [("One", "a.md"); ("Two", "b.md")] = [("One", "a.md"); ("Two", "b.md")].
Proof.
  refine (proj1 (X10_distinct_titles_keep_all_links _) _).
  repeat constructor; simpl; intuition discriminate.
Defined.

Lemma lower_char_idem (c : ascii) : lower_char (lower_char c) = lower_char c.
Proof. each_char c; vm_compute; reflexivity. Qed.

Lemma ci_eqb_lower (c d : ascii) : ci_eqb c (lower_char d) = ci_eqb c d.
Proof. unfold ci_eqb. now rewrite lower_char_idem. Qed.

Lemma head_lower_word (s : string) :
  word_opt (Re.head (lower s)) = word_opt (Re.head s).
Proof. destruct s as [|c s]; [reflexivity|]. cbn. apply Matching.lower_char_word. Qed.

Lemma match_here_lower (atoms : list atom) :
  forall prev prev' s,
    word_opt prev' = word_opt prev ->
    match_here atoms prev' (lower s) = match_here atoms prev s.
Proof.
  induction atoms as [|[|c] atoms IH]; intros prev prev' s Hp; [reflexivity | |].
  - cbn [match_here]. unfold at_boundary.
    now rewrite Hp, head_lower_word, (IH prev prev' s Hp).
  - destruct s as [|d s]; [reflexivity|].
    rewrite lower_cons. cbn [match_here]. rewrite ci_eqb_lower.
    rewrite (IH (Some d) (Some (lower_char d)) s); [reflexivity|].
    cbn. apply Matching.lower_char_word.
Qed.

Lemma search_from_lower (atoms : list atom) :
  forall s prev prev',
    word_opt prev' = word_opt prev ->
    search_from atoms prev' (lower s) = search_from atoms prev s.
Proof.
  induction s as [|d s IH]; intros prev prev' Hp.
  - pose proof (match_here_lower atoms prev prev' "" Hp) as H.
    change (lower "") with "" in *. cbn [search_from]. now rewrite H.
  - rewrite lower_cons. cbn [search_from].
    rewrite <- lower_cons, (match_here_lower atoms prev prev' _ Hp).
    rewrite (IH (Some d) (Some (lower_char d))); [reflexivity|].
    cbn. apply Matching.lower_char_word.
Qed.

Lemma lower_idem (s : string) : lower (lower s) = lower s.
Proof.
  induction s as [|c s IH]; [reflexivity|].
  now rewrite !lower_cons, lower_char_idem, IH.
Qed.

(** X11.  On texts and terms of code points below 256, the characters of this
    model, the test of the scan does not look at case: putting the text, or
    the term, in lower case does not change whether the term hits.  (Beyond
    that range [str.lower] can change a hit, as on a capital I with a dot
    above.) *)
Theorem X11_hit_ignores_case (term content : string) :
  term_hit term (lower content) = term_hit term content
  /\ term_hit (lower term) content = term_hit term content.
Proof.
  split.
  - rewrite !term_hit_search. now apply search_from_lower.
  - assert (H : term_hit (lower term) content = true <-> term_hit term content = true).
    { rewrite !term_hit_iff. unfold contains_whole_word, same_ignoring_case.
      now rewrite lower_idem. }
    destruct (term_hit (lower term) content), (term_hit term content);
      intuition congruence.
Qed.

(** X12.  A term that starts and ends with a word character hits every text in
    which it stands with no word character directly before or after it; every
    term of the vocabulary except "A*" is such a term. *)
Theorem X12_whole_word_mentions_hit :
  (forall term pre post,
      word_opt (Re.head term) = true -> word_opt (last_char term) = true ->
      word_opt (last_char pre) = false -> word_opt (Re.head post) = false ->
      term_hit term (pre ++ term ++ post) = true)
  /\ (forall term,
        In term EXPLICIT_TERMS -> term <> "A*" ->
        word_opt (Re.head term) = true /\ word_opt (last_char term) = true).
Proof.
  split.
  - intros term pre post Hh Hl Hpre Hpost. apply term_hit_iff.
    exists pre, term, post. split; [reflexivity|]. split; [reflexivity|].
    destruct term as [|c t]; [discriminate|].
    split; apply at_boundary_iff; unfold at_boundary.
    + rewrite Hpre. cbn [append Re.head]. cbn [Re.head] in Hh. now rewrite Hh.
    + unfold last_char in *. rewrite last_or_app, Matching.last_or_nonempty.
      unfold last_char. now rewrite Hl, Hpost.
  - intros term Hin Hne.
    assert (H : forallb (fun t => String.eqb t "A*"
                                  || (word_opt (Re.head t) && word_opt (last_char t)))
                        EXPLICIT_TERMS = true) by (vm_compute; reflexivity).
    rewrite forallb_forall in H. specialize (H term Hin).
    apply orb_true_iff in H as [H | H].
    + apply String.eqb_eq in H. contradiction.
    + now apply andb_true_iff in H.
Qed.

Lemma X12_whole_word_mentions_hit_witness :
  term_hit "Octree" ("An " ++ "Octree" ++ ".") = true.
Proof.
  refine (proj1 X12_whole_word_mentions_hit "Octree" "An " "." _ _ _ _);
    reflexivity.
Defined.

Lemma iter_lines_newline_last (s : string) :
  forall l, In l (iter_lines s) ->
            forall a b, l = a ++ String newline b -> b = "".
Proof.
  induction s as [|c r IH]; intros l Hin a b E; [destruct Hin|].
  cbn [iter_lines] in Hin. destruct (Ascii.eqb_spec c newline) as [->|Hc].
  - destruct Hin as [<-|Hin]; [|now apply (IH l Hin a b)].
    destruct a as [|x a]; simpl in E; [now injection E|].
    injection E as _ E. destruct a; discriminate.
  - destruct (iter_lines r) as [|l0 ls] eqn:El.
    + destruct Hin as [<-|[]]. destruct a as [|x a]; simpl in E.
      * injection E as E _. congruence.
      * injection E as _ E. destruct a; discriminate.
    + destruct Hin as [<-|Hin]; [|apply (IH l (or_intror Hin) a b E)].
      destruct a as [|x a]; simpl in E; [injection E as E _; congruence|].
      injection E as _ E. apply (IH l0 (or_introl eq_refl) a b E).
Qed.

Lemma lstrip_suffix (p : ascii -> bool) (s : string) :
  exists u, s = u ++ lstrip_by p s.
Proof.
  induction s as [|c r [u IH]]; [now exists ""|].
  cbn [lstrip_by]. destruct (p c); [|now exists ""].
  exists (String c u). simpl. now rewrite <- IH.
Qed.

Lemma rstrip_prefix (p : ascii -> bool) (s : string) :
  exists v, s = rstrip_by p s ++ v.
Proof.
  induction s as [|c r [v IH]]; [now exists ""|].
  cbn [rstrip_by]. destruct (rstrip_by p r) as [|d rr].
  - destruct (p c); [now exists (String c r)|].
    exists v. simpl in *. now rewrite <- IH.
  - exists v. simpl in *. now rewrite <- IH.
Qed.

Lemma rstrip_last (p : ascii -> bool) (s : string) (z : ascii) :
  last_char (rstrip_by p s) = Some z -> p z = false.
Proof.
  induction s as [|c r IH]; [discriminate|].
  cbn [rstrip_by]. destruct (rstrip_by p r) as [|d rr].
  - destruct (p c) eqn:E; [discriminate|].
    intros H. unfold last_char in H. simpl in H. now injection H as <-.
  - intros H. apply IH. exact H.
Qed.

Lemma lstrip_head (p : ascii -> bool) (s : string) (a : ascii) :
  Re.head (lstrip_by p s) = Some a -> p a = false.
Proof.
  induction s as [|c r IH]; [discriminate|].
  cbn [lstrip_by]. destruct (p c) eqn:E; [exact IH|].
  intros H. simpl in H. now injection H as <-.
Qed.

Lemma has_char_split (c : ascii) (s : string) :
  has_char c s = true -> exists a b, s = a ++ String c b.
Proof.
  induction s as [|d r IH]; [discriminate|].
  cbn [has_char]. intros H. apply orb_true_iff in H as [H | H].
  - apply Ascii.eqb_eq in H. subst d. now exists "", r.
  - destruct (IH H) as (a & b & ->). now exists (String d a), b.
Qed.

Lemma strip_by_part (p : ascii -> bool) (s : string) :
  part_of (rstrip_by p (lstrip_by p s)) s
  /\ not_space_by p (Re.head (rstrip_by p (lstrip_by p s)))
  /\ not_space_by p (last_char (rstrip_by p (lstrip_by p s))).
Proof.
  destruct (lstrip_suffix p s) as [u Hu].
  destruct (rstrip_prefix p (lstrip_by p s)) as [v Hv].
  split; [|split].
  - exists u, v. now rewrite <- Hv.
  - destruct (rstrip_by p (lstrip_by p s)) as [|a r] eqn:E; [exact I|].
    cbn. apply (lstrip_head p s). rewrite Hv. reflexivity.
  - destruct (last_char (rstrip_by p (lstrip_by p s))) as [z|] eqn:E; [|exact I].
    cbn. exact (rstrip_last p (lstrip_by p s) z E).
Qed.

Lemma part_of_trans (a b c : string) : part_of a b -> part_of b c -> part_of a c.
Proof.
  intros (u & v & ->) (u' & v' & ->). exists (u' ++ u), (v ++ v').
  now rewrite !append_assoc.
Qed.

(** X13.  A title taken from a heading line is a contiguous part of that line,
    has no white space at either end and holds no line feed, so the link it
    is rendered in stays on the line of its term. *)
Theorem X13_heading_title_is_one_trimmed_line
    (path content : string) (before : list string) (line : string)
    (after : list string) :
  iter_lines content = (before ++ line :: after)%list ->
  Forall (fun l => is_heading l = false) before ->
  is_heading line = true ->
  part_of (get_title path content) line
  /\ not_space (Re.head (get_title path content))
  /\ not_space (last_char (get_title path content))
  /\ has_char newline (get_title path content) = false.
Proof.
  intros Hlines Hbefore Hline.
  rewrite (get_title_first_heading path content before line after Hlines Hbefore Hline).
  set (inner := strip_chars "# " line).
  destruct (strip_by_part (fun c => has_char c "# ") line) as [Hin _].
  destruct (strip_by_part is_space inner) as (Hpart & Hhead & Hlast).
  fold (strip inner) in Hpart, Hhead, Hlast.
  assert (Hp : part_of (strip inner) line) by (eapply part_of_trans; eassumption).
  split; [exact Hp|]. split; [exact Hhead|]. split; [exact Hlast|].
  destruct (has_char newline (strip inner)) eqn:E; [|reflexivity]. exfalso.
  destruct (has_char_split _ _ E) as (a & b & Et).
  destruct Hp as (u & v & El). rewrite Et in El.
  assert (Hb : b ++ v = "").
  { apply (iter_lines_newline_last content line) with (a := u ++ a).
    - rewrite Hlines. apply in_elt.
    - rewrite El. now rewrite !append_assoc. }
  destruct b; [|discriminate]. rewrite Et in Hlast.
  rewrite last_char_snoc in Hlast. cbn in Hlast. discriminate.
Qed.

Lemma X13_heading_title_is_one_trimmed_line_witness :
  has_char newline
    (get_title "book/ch1.md" ("Preface" ++ nl ++ "#  Chapter One # " ++ nl)) = false.
Proof.
  refine (proj2 (proj2 (proj2 (X13_heading_title_is_one_trimmed_line "book/ch1.md"
            ("Preface" ++ nl ++ "#  Chapter One # " ++ nl)
            ["Preface" ++ nl] ("#  Chapter One # " ++ nl) [] _ _ _)))).
  - vm_compute. reflexivity.
  - repeat constructor.
  - vm_compute. reflexivity.
Defined.

End IndexExtras.

(** * Further properties of the figure generator *)

Module FigureExtras.
Import BookFigures FigureClaims.

Lemma only_adds_refl allowed s : only_adds allowed s s.
Proof.
  repeat split.
  - exists []. split; [now rewrite app_nil_r | intros x []].
  - apply incl_refl.
  - intros f H. now left.
  - apply incl_refl.
  - exists []. now rewrite app_nil_r.
Qed.

Lemma only_adds_trans allowed a b c :
  only_adds allowed a b -> only_adds allowed b c -> only_adds allowed a c.
Proof.
  intros ((l & E & Hl) & Hf & Hn & Hd & (o & Eo))
         ((l' & E' & Hl') & Hf' & Hn' & Hd' & (o' & Eo')).
  repeat split.
  - exists (l ++ l')%list. split; [now rewrite E', E, app_assoc | now apply incl_app].
  - eapply incl_tran; eassumption.
  - intros f H. destruct (Hn' f H) as [H1 | H1]; [now apply Hn | now right].
  - eapply incl_tran; eassumption.
  - exists (o ++ o')%list. now rewrite Eo', Eo, app_assoc.
Qed.

Lemma print_only_adds allowed line : respects (only_adds allowed) (print line).
Proof.
  intros s o s' E. injection E as _ <-. repeat split; cbn.
  - exists []. split; [now rewrite app_nil_r | intros x []].
  - apply incl_refl.
  - intros f H. now left.
  - apply incl_refl.
  - now exists [line].
Qed.

Lemma call_only_adds lib c allowed :
  (forall path, c = plt_savefig path -> In path allowed) ->
  respects (only_adds allowed) (call lib c).
Proof.
  intros Hc s o s' E. unfold call in E.
  assert (Hcount : only_adds allowed s (count_call s)).
  { repeat split; cbn.
    - exists []. split; [now rewrite app_nil_r | intros x []].
    - apply incl_refl.
    - intros f H. now left.
    - apply incl_refl.
    - exists []. now rewrite app_nil_r. }
  destruct (lib (calls s) c); injection E as _ <-; [exact Hcount|].
  destruct c; try exact Hcount.
  repeat split; cbn.
  - exists [path]. split; [reflexivity|]. intros x [<-|[]]. now apply Hc.
  - intros f H. apply add_path_In. now left.
  - intros f H. apply add_path_In in H as [H | ->]; [now left|].
    right. now apply Hc.
  - apply incl_refl.
  - exists []. now rewrite app_nil_r.
Qed.

Lemma ensure_output_dir_only_adds allowed :
  respects (only_adds allowed) ensure_output_dir.
Proof.
  intros s o s' E.
  destruct (ensure_output_dir_cases s) as [[_ E'] | [(_ & _ & E') | (_ & _ & E')]];
    rewrite E' in E; injection E as _ <-; try apply only_adds_refl.
  repeat split; cbn.
  - exists []. split; [now rewrite app_nil_r | intros x []].
  - apply incl_refl.
  - intros f H. now left.
  - intros d H. unfold made_dirs.
    destruct (path_exists s "book"); rewrite !in_app_iff; auto.
  - exists []. now rewrite app_nil_r.
Qed.

Ltac figure_in :=
  unfold all_figures, figure_names, figure_path; cbn [map In];
  first [ left; reflexivity | right; left; reflexivity
        | right; right; left; reflexivity ].

Ltac adds_only :=
  first [ apply print_only_adds
        | apply ensure_output_dir_only_adds
        | apply call_only_adds; intros p E; inversion E; subst; figure_in
        | apply (respects_label_bars _ (only_adds_refl _) (only_adds_trans _));
          intros c Hc; apply call_only_adds; intros p E; now apply Hc in E
        | apply (respects_bind _ (only_adds_trans _)); [adds_only | intros _; adds_only]
        | apply (respects_try _ (only_adds_trans _)); [adds_only | intros e; adds_only] ].

(** X14.  Whatever the calls into matplotlib do, a run of [main] removes
    nothing: it saves no file other than the three figures, every file and
    directory that existed is still there, every new file is one of the three
    figures, and the lines already printed stay in front of the new ones. *)
Theorem X14_run_only_adds_the_figures (lib : backend) (s0 : state) :
  only_adds all_figures s0 (snd (main lib s0))
  /\ all_figures
     = [ "book/images/benchmark_neighbor_lookup.png";
         "book/images/benchmark_memory_efficiency.png";
         "book/images/benchmark_isotropy.png" ].
Proof.
  split; [|reflexivity].
  destruct (main lib s0) as [o s'] eqn:E. cbn [snd].
  revert E. generalize s0, o, s'.
  change (respects (only_adds all_figures) (main lib)).
  unfold main, plot_all, report, plot_neighbor_lookup, plot_memory_usage,
    plot_isotropy. cbv zeta.
  adds_only.
Qed.

(** X15.  What is raised in one of the three plotting calls and is not an
    instance of [Exception] is not caught: it leaves [main] with the state of
    the failing call, so neither the error message nor the hint is printed.
    After a signal of the interpreter the exit status is not 0; after
    [SystemExit] it is the status of that exit, 0 included. *)
Theorem X15_signal_leaves_main
    (lib : backend) (s0 : state) (e : raised) (s' : state)
    (remaining : list string) :
  plot_fails lib (before_try s0) e s' remaining ->
  (forall message, e <> Exception message) ->
  main lib s0 = (Raised e, s')
  /\ plot_all lib (before_try s0) = (Raised e, s')
  /\ (forall name, e = Signal name -> exit_status (fst (main lib s0)) <> 0)
  /\ (forall status, e = SystemExit status ->
                     exit_status (fst (main lib s0)) = status).
Proof.
  intros Hfail Hnot.
  assert (Hplot := plot_fails_plot_all _ _ _ _ _ Hfail).
  assert (Hmain : main lib s0 = (Raised e, s')).
  { rewrite (main_unfold _ _ (plot_fails_entered _ _ _ _ _ Hfail)).
    unfold try_except_Exception. rewrite Hplot.
    destruct e as [message | name | status]; [|reflexivity|reflexivity].
    now destruct (Hnot message). }
  split; [exact Hmain|]. split; [exact Hplot|]. rewrite Hmain. split.
  - intros name ->. cbn. destruct (String.eqb name "KeyboardInterrupt"); discriminate.
  - intros status ->. reflexivity.
Qed.

Lemma X15_signal_leaves_main_witness :
  exists s',
    plot_fails (fails_at 3 keyboard_interrupt) (before_try fresh)
               keyboard_interrupt s'
               [figure_path memory_efficiency_png; figure_path isotropy_png]
    /\ main (fails_at 3 keyboard_interrupt) fresh = (Raised keyboard_interrupt, s').
Proof.
  assert (Hf : plot_fails (fails_at 3 keyboard_interrupt) (before_try fresh)
                 keyboard_interrupt
                 (snd (plot_all (fails_at 3 keyboard_interrupt) (before_try fresh)))
                 [figure_path memory_efficiency_png; figure_path isotropy_png]).
  { apply fails_first; vm_compute; reflexivity. }
  exists (snd (plot_all (fails_at 3 keyboard_interrupt) (before_try fresh))).
  split; [exact Hf|].
  refine (proj1 (X15_signal_leaves_main _ fresh keyboard_interrupt _ _ Hf _)).
  intros message. discriminate.
Defined.

(** X17.  [ensure_output_dir] by cases.  When book/images exists it returns
    and changes nothing.  When it does not exist and a file named book is in
    the way, [os.makedirs] raises and nothing is changed.  Otherwise it
    returns, book and book/images exist afterwards, and only directories have
    been added.  Whenever it has returned, calling it again changes nothing
    more. *)
Theorem X17_ensure_output_dir_is_idempotent (s : state) :
  (path_exists s OUTPUT_DIR = true -> ensure_output_dir s = (Returned tt, s))
  /\ (path_exists s OUTPUT_DIR = false -> mem "book" (files s) = true ->
      ensure_output_dir s
      = (Raised (Exception "[Errno 20] Not a directory: 'book/images'"), s))
  /\ (path_exists s OUTPUT_DIR = false -> mem "book" (files s) = false ->
      fst (ensure_output_dir s) = Returned tt
      /\ path_exists (snd (ensure_output_dir s)) OUTPUT_DIR = true
      /\ path_exists (snd (ensure_output_dir s)) "book" = true
      /\ (forall d, In d (dirs (snd (ensure_output_dir s)))
                    <-> In d (dirs s) \/ d = "book" \/ d = OUTPUT_DIR)
      /\ files (snd (ensure_output_dir s)) = files s
      /\ stdout (snd (ensure_output_dir s)) = stdout s
      /\ saved (snd (ensure_output_dir s)) = saved s)
  /\ (forall s', ensure_output_dir s = (Returned tt, s') ->
                 ensure_output_dir s' = (Returned tt, s')).
Proof.
  split; [|split; [|split]].
  - intros H. unfold ensure_output_dir. now rewrite H.
  - intros H1 H2.
    destruct (ensure_output_dir_cases s) as [[H _] | [(_ & _ & E) | (_ & H & _)]];
      [congruence | exact E | congruence].
  - intros H1 H2.
    destruct (ensure_output_dir_cases s) as [[H _] | [(_ & H & _) | (_ & _ & E)]];
      [congruence | congruence |].
    rewrite E. cbn [fst snd]. unfold made_dirs.
    assert (Hbook : path_exists s "book" = mem "book" (dirs s))
      by (unfold path_exists; now rewrite H2, orb_false_r).
    rewrite Hbook.
    destruct (mem "book" (dirs s)) eqn:Eb;
      unfold with_dirs, path_exists; cbn [dirs files].
    + rewrite !mem_snoc, Eb. cbn [orb].
      split; [reflexivity|]. split; [now rewrite orb_true_r|].
      split; [reflexivity|]. split; [|auto].
      apply mem_In in Eb. intros d. rewrite in_app_iff. cbn [In]. split.
      * intros [H | [<- | []]]; auto.
      * intros [H | [-> | ->]]; auto.
    + rewrite !mem_snoc.
      split; [reflexivity|]. split; [now rewrite orb_true_r|].
      split; [now rewrite orb_true_r|]. split; [|auto].
      intros d. rewrite !in_app_iff. cbn [In]. split.
      * intros [[H | [<- | []]] | [<- | []]]; auto.
      * intros [H | [-> | ->]]; auto.
  - intros s' E. apply ensure_output_dir_returned in E.
    unfold ensure_output_dir. now rewrite E.
Qed.

Lemma X17_ensure_output_dir_is_idempotent_witness :
  path_exists fresh OUTPUT_DIR = false
  /\ mem "book" (files fresh) = false
  /\ path_exists (snd (ensure_output_dir fresh)) OUTPUT_DIR = true
  /\ ensure_output_dir state_with_file_book
     = (Raised (Exception "[Errno 20] Not a directory: 'book/images'"),
        state_with_file_book).
Proof.
  assert (H1 : path_exists fresh OUTPUT_DIR = false) by reflexivity.
  assert (H2 : mem "book" (files fresh) = false) by reflexivity.
  split; [exact H1|]. split; [exact H2|]. split.
  - exact (proj1 (proj2 (proj1 (proj2 (proj2 (X17_ensure_output_dir_is_idempotent fresh)))
                           H1 H2))).
  - apply (proj1 (proj2 (X17_ensure_output_dir_is_idempotent state_with_file_book)));
      reflexivity.
Defined.

Lemma bind_returned {A B} (c : M A) (k : A -> M B) s b s' :
  bind c k s = (Returned b, s') ->
  exists a s1, c s = (Returned a, s1) /\ k a s1 = (Returned b, s').
Proof.
  unfold bind. destruct (c s) as [[a|e] s1]; [|discriminate].
  intros H. now exists a, s1.
Qed.

Lemma call_returned lib c s (a : unit) s' :
  call lib c s = (Returned a, s') -> s' = effect c (count_call s).
Proof.
  unfold call. destruct (lib (calls s) c); [discriminate|].
  intros H. now injection H as _ <-.
Qed.

Lemma savefig_close_returned lib path s (a : unit) s' :
  (call lib (plt_savefig path) ;; call lib plt_close) s = (Returned a, s') ->
  In path (saved s') /\ In path (files s').
Proof.
  intros H. apply bind_returned in H as (a1 & s1 & H1 & H).
  apply call_returned in H1, H. subst. cbn. split.
  - apply in_or_app. right. now left.
  - apply add_path_In. now right.
Qed.

Lemma same_stdout_refl s : same_stdout s s.
Proof. reflexivity. Qed.

Lemma same_stdout_trans a b c : same_stdout a b -> same_stdout b c -> same_stdout a c.
Proof. unfold same_stdout. congruence. Qed.

Lemma call_same_stdout lib c : respects same_stdout (call lib c).
Proof.
  intros s o s' E. unfold call in E.
  destruct (lib (calls s) c); injection E as _ <-; [reflexivity|].
  destruct c; reflexivity.
Qed.

Ltac keep_stdout :=
  first [ apply call_same_stdout
        | apply (respects_label_bars _ same_stdout_refl same_stdout_trans);
          intros; apply call_same_stdout
        | apply (respects_bind _ same_stdout_trans);
          [keep_stdout | intros _; keep_stdout] ].

Ltac adds_figures :=
  first [ apply call_only_adds; intros p E; inversion E; subst; figure_in
        | apply (respects_label_bars _ (only_adds_refl _) (only_adds_trans _));
          intros c Hc; apply call_only_adds; intros p E; now apply Hc in E
        | apply (respects_bind _ (only_adds_trans _));
          [adds_figures | intros _; adds_figures] ].

Lemma plot_neighbor_lookup_plots lib :
  plots neighbor_lookup_png (plot_neighbor_lookup lib).
Proof.
  intros s o s' E. split; [|split].
  - revert E. generalize s, o, s'. change (respects same_stdout (plot_neighbor_lookup lib)).
    unfold plot_neighbor_lookup. cbv zeta. keep_stdout.
  - revert E. generalize s, o, s'.
    change (respects (only_adds all_figures) (plot_neighbor_lookup lib)).
    unfold plot_neighbor_lookup. cbv zeta. adds_figures.
  - intros ->. unfold plot_neighbor_lookup in E. cbv zeta in E.
    do 6 (apply bind_returned in E as (? & ? & _ & E)).
    now apply savefig_close_returned in E.
Qed.

Lemma plot_memory_usage_plots lib :
  plots memory_efficiency_png (plot_memory_usage lib).
Proof.
  intros s o s' E. split; [|split].
  - revert E. generalize s, o, s'. change (respects same_stdout (plot_memory_usage lib)).
    unfold plot_memory_usage. cbv zeta. keep_stdout.
  - revert E. generalize s, o, s'.
    change (respects (only_adds all_figures) (plot_memory_usage lib)).
    unfold plot_memory_usage. cbv zeta. adds_figures.
  - intros ->. unfold plot_memory_usage in E. cbv zeta in E.
    do 6 (apply bind_returned in E as (? & ? & _ & E)).
    now apply savefig_close_returned in E.
Qed.

Lemma plot_isotropy_plots lib :
  plots isotropy_png (plot_isotropy lib).
Proof.
  intros s o s' E. split; [|split].
  - revert E. generalize s, o, s'. change (respects same_stdout (plot_isotropy lib)).
    unfold plot_isotropy. cbv zeta. keep_stdout.
  - revert E. generalize s, o, s'.
    change (respects (only_adds all_figures) (plot_isotropy lib)).
    unfold plot_isotropy. cbv zeta. adds_figures.
  - intros ->. unfold plot_isotropy in E. cbv zeta in E.
    do 5 (apply bind_returned in E as (? & ? & _ & E)).
    now apply savefig_close_returned in E.
Qed.

Lemma only_adds_keeps allowed s s' f :
  only_adds allowed s s' ->
  (In f (saved s) -> In f (saved s')) /\ (In f (files s) -> In f (files s')).
Proof.
  intros ((l & E & _) & Hf & _). split.
  - intros H. rewrite E. apply in_or_app. now left.
  - apply Hf.
Qed.

(** The figures whose progress line the [try] has printed are saved. *)
Lemma plot_all_progress lib s o s' :
  plot_all lib s = (o, s') ->
  exists finished,
    stdout s' = (stdout s ++ map generated_line finished)%list
    /\ incl finished figure_names
    /\ forall name, In name finished ->
                    In (figure_path name) (saved s')
                    /\ In (figure_path name) (files s').
Proof.
  unfold plot_all, bind. intros E.
  destruct (plot_neighbor_lookup lib s) as [[[]|e1] s1] eqn:E1.
  2:{ injection E as _ <-. exists [].
      destruct (plot_neighbor_lookup_plots lib _ _ _ E1) as (Ho & _).
      split; [now rewrite Ho, app_nil_r|]. split; [intros x []|intros n []]. }
  destruct (plot_neighbor_lookup_plots lib _ _ _ E1) as (Ho1 & _ & Hs1).
  destruct (Hs1 eq_refl) as [Hsv1 Hfl1]. clear Hs1.
  cbn [print] in E.
  match type of E with
  | context [plot_memory_usage lib ?st] => set (p1 := st) in *
  end.
  destruct (plot_memory_usage lib p1) as [[[]|e2] s2] eqn:E2.
  2:{ injection E as _ <-. exists [neighbor_lookup_png].
      destruct (plot_memory_usage_plots lib _ _ _ E2) as (Ho & Ha & _).
      split; [rewrite Ho; unfold p1; cbn; now rewrite Ho1|].
      split; [intros x [<-|[]]; now left|].
      intros n [<-|[]]. destruct (only_adds_keeps _ _ _ (figure_path neighbor_lookup_png) Ha).
      unfold p1 in *. cbn in *. auto. }
  destruct (plot_memory_usage_plots lib _ _ _ E2) as (Ho2 & Ha2 & Hs2).
  destruct (Hs2 eq_refl) as [Hsv2 Hfl2]. clear Hs2.
  destruct (only_adds_keeps _ _ _ (figure_path neighbor_lookup_png) Ha2) as [Hk1 Hk1'].
  match type of E with
  | context [plot_isotropy lib ?st] => set (p2 := st) in *
  end.
  destruct (plot_isotropy lib p2) as [[[]|e3] s3] eqn:E3.
  2:{ injection E as _ <-. exists [neighbor_lookup_png; memory_efficiency_png].
      destruct (plot_isotropy_plots lib _ _ _ E3) as (Ho & Ha & _).
      split; [rewrite Ho; unfold p2; cbn; rewrite Ho2; unfold p1; cbn;
              rewrite Ho1, <- app_assoc; reflexivity|].
      split; [intros x [<-|[<-|[]]]; [now left | right; now left]|].
      destruct (only_adds_keeps _ _ _ (figure_path neighbor_lookup_png) Ha).
      destruct (only_adds_keeps _ _ _ (figure_path memory_efficiency_png) Ha).
      unfold p1, p2 in *. cbn in *.
      intros n [<-|[<-|[]]]; auto. }
  destruct (plot_isotropy_plots lib _ _ _ E3) as (Ho3 & Ha3 & Hs3).
  destruct (Hs3 eq_refl) as [Hsv3 Hfl3]. clear Hs3.
  destruct (only_adds_keeps _ _ _ (figure_path neighbor_lookup_png) Ha3).
  destruct (only_adds_keeps _ _ _ (figure_path memory_efficiency_png) Ha3).
  injection E as _ <-.
  exists [neighbor_lookup_png; memory_efficiency_png; isotropy_png].
  split; [cbn; rewrite Ho3; unfold p2; cbn; rewrite Ho2; unfold p1; cbn;
          rewrite Ho1, <- !app_assoc; reflexivity|].
  split; [apply incl_refl|].
  unfold p1, p2 in *. cbn in *.
  intros n [<-|[<-|[<-|[]]]]; auto.
Qed.

(** X16.  The progress lines tell the truth: whatever the calls into matplotlib
    do, a line "Generated <name>" that [main] has printed for one of the three
    figures means that the figure of that name has been saved and its file is
    in book/images at the end of the run. *)
Theorem X16_progress_lines_are_truthful
    (lib : backend) (s0 : state) (name : string) :
  In name figure_names ->
  ~ In (generated_line name) (stdout s0) ->
  In (generated_line name) (stdout (snd (main lib s0))) ->
  In (figure_path name) (saved (snd (main lib s0)))
  /\ In (figure_path name) (files (snd (main lib s0))).
Proof.
  intros Hname Hold Hline.
  assert (Hb : stdout (before_try s0)
               = (stdout s0 ++ ["Generating figures in book/images..."])%list).
  { destruct (before_try_cases s0) as [[_ E] | [(_ & _ & E) | (_ & _ & E)]];
      rewrite E; reflexivity. }
  destruct (path_exists (before_try s0) OUTPUT_DIR) eqn:Hentered.
  2:{ destruct (main_blocked lib s0 Hentered) as (Hmain & _).
      rewrite Hmain in Hline. cbn [snd] in Hline. rewrite Hb in Hline.
      apply in_app_iff in Hline as [H | [H | []]]; [contradiction|].
      destruct Hname as [<-|[<-|[<-|[]]]]; discriminate. }
  rewrite (main_unfold _ _ Hentered) in *.
  unfold try_except_Exception in *.
  destruct (plot_all lib (before_try s0)) as [o s'] eqn:E.
  destruct (plot_all_progress lib _ _ _ E) as (finished & Hout & Hincl & Hsaved).
  assert (Hfin : In (generated_line name) (stdout s') -> In name finished).
  { rewrite Hout, Hb. intros H.
    apply in_app_iff in H as [H | H].
    - apply in_app_iff in H as [H | [H | []]]; [contradiction|].
      destruct Hname as [<-|[<-|[<-|[]]]]; discriminate.
    - apply in_map_iff in H as (n & En & Hn).
      assert (n = name); [|now subst].
      apply Hincl in Hn.
      destruct Hname as [<-|[<-|[<-|[]]]], Hn as [<-|[<-|[<-|[]]]];
        first [reflexivity | discriminate]. }
  assert (Hreport : forall e, In (generated_line name) (stdout (reported e s')) ->
                              In (generated_line name) (stdout s')).
  { intros e H. cbn in H. rewrite <- app_assoc in H.
    apply in_app_iff in H as [H | [H | [H | []]]]; [exact H | |];
      destruct Hname as [<-|[<-|[<-|[]]]]; discriminate. }
  destruct o as [[]|[message|signal|status]]; cbn [snd] in *.
  - apply Hsaved, Hfin, Hline.
  - change (snd (report (Exception message) s'))
      with (reported (Exception message) s') in *.
    apply Hreport in Hline. now apply Hsaved, Hfin.
  - apply Hsaved, Hfin, Hline.
  - apply Hsaved, Hfin, Hline.
Qed.

Lemma X16_progress_lines_are_truthful_witness :
  In (figure_path neighbor_lookup_png)
     (saved (snd (main (fails_at 20 import_error) fresh))).
Proof.
  refine (proj1 (X16_progress_lines_are_truthful (fails_at 20 import_error) fresh
                   neighbor_lookup_png _ _ _)).
  - left. reflexivity.
  - intros [].
  - vm_compute. right. left. reflexivity.
Defined.

End FigureExtras.
